(** * keep-alive: the render-tree node cache of [src/core/components/keep-alive.js]

    A shallow embedding of the component's helpers ([getComponentName],
    [matches], [pruneCache], [pruneCacheEntry]) and of its methods and
    lifecycle hooks ([cacheVNode], [created], [destroyed], [mounted],
    [updated], [render]), followed by the properties of the cache.

    Conventions of the embedding:
    - a [?string] is an [option string], [null] and [undefined] being
      both [None]; truthiness is written out where the code tests it;
    - cache keys are strings, as the annotations of [render]
      ([key: ?string]) and of [pruneCacheEntry] ([keys: Array<string>])
      declare them;
    - the cache object is the list of its properties in creation order,
      which fixes the order of a [for ... in] loop;
    - vnodes live in a heap, since the node stored by [render] in
      [vnodeToCache] is the object the host instantiates afterwards;
    - a [$destroy()] call is recorded in a log of the instances it was
      made on. *)

From Stdlib Require Import List String Ascii Bool Arith ZArith NArith Lia.
From Stdlib Require Import DecimalString DecimalN Permutation.
Import ListNotations.

Local Open Scope string_scope.
Local Open Scope list_scope.

(** ** JavaScript values used by the component *)

Module Js.

(** Truthiness of a [?string]: [undefined], [null] and the empty string
    are falsy. *)
Definition truthy_str (s : option string) : bool :=
  match s with
  | Some EmptyString => false
  | Some _ => true
  | None => false
  end.

(** [a || b] on two [?string] operands. *)
Definition or_str (a b : option string) : option string :=
  if truthy_str a then a else b.

(** [Array.prototype.indexOf(name) > -1] on an array of strings. *)
Fixpoint includes (l : list string) (name : string) : bool :=
  match l with
  | [] => false
  | x :: l' => if String.eqb x name then true else includes l' name
  end.

(** [String.prototype.split(sep)] for a one-character separator: the
    pieces between the separators, the empty string giving one empty
    piece. *)
Fixpoint split (sep : ascii) (s : string) : list string :=
  match s with
  | EmptyString => [EmptyString]
  | String c s' =>
      if Ascii.eqb c sep then EmptyString :: split sep s'
      else match split sep s' with
           | [] => [String c EmptyString]
           | p :: ps => String c p :: ps
           end
  end.

(** [String(n)] for a non-negative integer. *)
Definition string_of_N (n : N) : string :=
  NilZero.string_of_uint (N.to_uint n).

(** *** Regular expressions

    A regular expression object is a body with optional [^] and [$]
    anchors; [test] searches the subject for a match, by derivatives.
    Only regular expressions without the global or sticky flag are
    covered (those make [test] depend on [lastIndex]). *)
Inductive re : Type :=
| ReNone
| ReEps
| ReChar (c : ascii)
| ReAny
| ReCat (r1 r2 : re)
| ReAlt (r1 r2 : re)
| ReStar (r : re).

Record RegExp : Type := mkRegExp {
  re_bol : bool;
  re_body : re;
  re_eol : bool
}.

Fixpoint nullable (r : re) : bool :=
  match r with
  | ReNone => false
  | ReEps => true
  | ReChar _ => false
  | ReAny => false
  | ReCat r1 r2 => nullable r1 && nullable r2
  | ReAlt r1 r2 => nullable r1 || nullable r2
  | ReStar _ => true
  end.

Fixpoint deriv (c : ascii) (r : re) : re :=
  match r with
  | ReNone => ReNone
  | ReEps => ReNone
  | ReChar d => if Ascii.eqb c d then ReEps else ReNone
  | ReAny => ReEps
  | ReCat r1 r2 =>
      if nullable r1
      then ReAlt (ReCat (deriv c r1) r2) (deriv c r2)
      else ReCat (deriv c r1) r2
  | ReAlt r1 r2 => ReAlt (deriv c r1) (deriv c r2)
  | ReStar r1 => ReCat (deriv c r1) (ReStar r1)
  end.

Fixpoint accepts (r : re) (s : string) : bool :=
  match s with
  | EmptyString => nullable r
  | String c s' => accepts (deriv c r) s'
  end.

(** [RegExp.prototype.test]. *)
Definition test (r : RegExp) (s : string) : bool :=
  let pre := if re_bol r then ReEps else ReStar ReAny in
  let post := if re_eol r then ReEps else ReStar ReAny in
  accepts (ReCat pre (ReCat (re_body r) post)) s.

End Js.

(** [a === b] on two [?string] values. *)
Definition strict_eq_str (a b : option string) : bool :=
  match a, b with
  | Some x, Some y => String.eqb x y
  | None, None => true
  | _, _ => false
  end.

(** ** Pattern matcher (lines 18-28) *)

(** The value of the [include] and [exclude] props.  [POther] stands for
    every value that is neither an array, a string nor a regular
    expression ([undefined], [null], a number, a plain object ...), of
    which only the truthiness is ever observed. *)
Inductive Pattern : Type :=
| PArray (l : list string)
| PString (s : string)
| PRegExp (r : Js.RegExp)
| POther (truthy : bool).

Definition pattern_truthy (p : Pattern) : bool :=
  match p with
  | PArray _ => true
  | PString s => Js.truthy_str (Some s)
  | PRegExp _ => true
  | POther b => b
  end.

(** Modelled from the spec: [isRegExp] is imported from [shared/util] and
    is not part of this file; it holds exactly of the "Regex pattern"
    shape. *)
Definition isRegExp (p : Pattern) : bool :=
  match p with
  | PRegExp _ => true
  | _ => false
  end.

Definition matches (pattern : Pattern) (name : string) : bool :=
  match pattern with
  | PArray l => Js.includes l name
  | PString s => Js.includes (Js.split "," s) name
  | _ =>
      if isRegExp pattern
      then match pattern with
           | PRegExp r => Js.test r name
           | _ => false
           end
      else false
  end.

(** ** Data model (lines 6-12) *)

(** A component instance is known by its uid; a vnode by the address of
    its object in the heap. *)
Definition Component : Type := nat.
Definition loc : Type := nat.

Module CacheEntry.
Record t : Type := mk {
  name : option string;
  tag : option string;
  componentInstance : Component
}.
End CacheEntry.

(** [opts.Ctor.cid], [opts.Ctor.options.name] and [opts.tag]. *)
Module VNodeComponentOptions.
Record t : Type := mk {
  Ctor_cid : N;
  Ctor_options_name : option string;
  tag : option string
}.
End VNodeComponentOptions.

(** The fields of a vnode that the component reads or writes.
    [data_keepAlive] is [vnode.data.keepAlive] (a component vnode always
    has a [data] object); [isAsyncPlaceholder] tells the comment vnodes
    standing for an unresolved async component. *)
Module VNode.
Record t : Type := mk {
  key : option string;
  tag : option string;
  componentInstance : option Component;
  componentOptions : option VNodeComponentOptions.t;
  data_keepAlive : bool;
  isAsyncPlaceholder : bool
}.

Definition set_componentInstance (i : option Component) (v : t) : t :=
  mk (key v) (tag v) i (componentOptions v) (data_keepAlive v)
     (isAsyncPlaceholder v).

Definition set_keepAlive (b : bool) (v : t) : t :=
  mk (key v) (tag v) (componentInstance v) (componentOptions v) b
     (isAsyncPlaceholder v).
End VNode.

(** The heap of vnode objects: the render function, the pending slot, the
    host's [_vnode] and the host itself hold references into it. *)
Definition Heap : Type := loc -> VNode.t.

Definition heap_set (h : Heap) (l : loc) (v : VNode.t) : Heap :=
  fun l' => if Nat.eqb l' l then v else h l'.

(** *** The cache object: [{ [key: string]: ?CacheEntry }]

    The own properties in creation order, each holding an entry or
    [null].  A property is never deleted, only set to [null]. *)
Definition CacheEntryMap : Type := list (string * option CacheEntry.t).

(** [cache[key]], with [undefined] (no such property) and [null] both
    read as [None]: the code only tests the result for truthiness. *)
Fixpoint cache_get (cache : CacheEntryMap) (key : string)
  : option CacheEntry.t :=
  match cache with
  | [] => None
  | (k, v) :: cache' => if String.eqb k key then v else cache_get cache' key
  end.

(** [cache[key] = v]. *)
Fixpoint cache_set (cache : CacheEntryMap) (key : string)
  (v : option CacheEntry.t) : CacheEntryMap :=
  match cache with
  | [] => [(key, v)]
  | (k, v0) :: cache' =>
      if String.eqb k key then (k, v) :: cache'
      else (k, v0) :: cache_set cache' key v
  end.

(** The array index a property name denotes, if it is the canonical
    decimal form of an integer below [2^32 - 1]. *)
Definition array_index (s : string) : option N :=
  match NilZero.uint_of_string s with
  | Some u =>
      let n := N.of_uint u in
      if String.eqb (Js.string_of_N n) s && (n <? 4294967295)%N
      then Some n else None
  | None => None
  end.

Fixpoint insert_sorted (n : N) (l : list N) : list N :=
  match l with
  | [] => [n]
  | m :: l' => if (n <=? m)%N then n :: l else m :: insert_sorted n l'
  end.

Definition sort_N (l : list N) : list N := fold_right insert_sorted [] l.

(** The keys a [for (const key in cache)] loop visits: the array indices
    in ascending order, then the other names in creation order. *)
Definition own_keys (cache : CacheEntryMap) : list string :=
  let names := map fst cache in
  let indices :=
    flat_map (fun k => match array_index k with
                       | Some n => [n]
                       | None => []
                       end) names in
  map Js.string_of_N (sort_N indices)
  ++ filter (fun k => match array_index k with
                      | Some _ => false
                      | None => true
                      end) names.

(** Modelled from the spec: [remove] is imported from [shared/util] and
    is not part of this file; it takes the key out of the ordered key
    sequence (its first occurrence), and leaves a sequence without the
    key as it is. *)
Fixpoint remove (arr : list string) (item : string) : list string :=
  match arr with
  | [] => []
  | x :: arr' => if String.eqb x item then arr' else x :: remove arr' item
  end.

(** ** [getComponentName] (lines 14-16) *)

Definition getComponentName (opts : option VNodeComponentOptions.t)
  : option string :=
  match opts with
  | None => None
  | Some o =>
      Js.or_str (VNodeComponentOptions.Ctor_options_name o)
                (VNodeComponentOptions.tag o)
  end.

(** ** Eviction (lines 30-55)

    The store is the cache object, the key array and the sequence of
    [$destroy()] calls issued so far, oldest first. *)
Record Store : Type := mkStore {
  st_cache : CacheEntryMap;
  st_keys : list string;
  st_destroyed : list Component
}.

(** [entry && (!current || entry.tag !== current.tag)]. *)
Definition destroys (entry : option CacheEntry.t) (current : option VNode.t)
  : bool :=
  match entry with
  | None => false
  | Some e =>
      match current with
      | None => true
      | Some cur =>
          negb (strict_eq_str (CacheEntry.tag e) (VNode.tag cur))
      end
  end.

Definition pruneCacheEntry (s : Store) (key : string)
  (current : option VNode.t) : Store :=
  let entry := cache_get (st_cache s) key in
  let destroyed :=
    if destroys entry current
    then match entry with
         | Some e => st_destroyed s ++ [CacheEntry.componentInstance e]
         | None => st_destroyed s
         end
    else st_destroyed s in
  mkStore (cache_set (st_cache s) key None) (remove (st_keys s) key) destroyed.

(** One turn of the loop of [pruneCache]. *)
Definition pruneCache_step (filter : string -> bool)
  (current : option VNode.t) (s : Store) (key : string) : Store :=
  match cache_get (st_cache s) key with
  | Some entry =>
      match CacheEntry.name entry with
      | Some name =>
          if Js.truthy_str (Some name) && negb (filter name)
          then pruneCacheEntry s key current
          else s
      | None => s
      end
  | None => s
  end.

Definition pruneCache (s : Store) (current : option VNode.t)
  (filter : string -> bool) : Store :=
  fold_left (pruneCache_step filter current) (own_keys (st_cache s)) s.

(** ** The component (lines 57-166) *)

(** The [max] prop: [[String, Number]].  Numbers are integers here. *)
Inductive MaxProp : Type :=
| MaxUndefined
| MaxNumber (n : Z)
| MaxString (s : string).

Definition max_truthy (m : MaxProp) : bool :=
  match m with
  | MaxUndefined => false
  | MaxNumber n => negb (n =? 0)%Z
  | MaxString s => Js.truthy_str (Some s)
  end.

Module ParseInt.

Definition is_space (c : ascii) : bool :=
  let n := nat_of_ascii c in
  Nat.eqb n 32 || (Nat.leb 9 n && Nat.leb n 13).

Fixpoint skip_spaces (s : string) : string :=
  match s with
  | String c s' => if is_space c then skip_spaces s' else s
  | EmptyString => s
  end.

Definition digit (radix : Z) (c : ascii) : option Z :=
  let n := Z.of_nat (nat_of_ascii c) in
  let d :=
    if (48 <=? n)%Z && (n <=? 57)%Z then Some (n - 48)%Z
    else if (97 <=? n)%Z && (n <=? 122)%Z then Some (n - 87)%Z
    else if (65 <=? n)%Z && (n <=? 90)%Z then Some (n - 55)%Z
    else None in
  match d with
  | Some v => if (v <? radix)%Z then Some v else None
  | None => None
  end.

(** The value of the longest prefix of digits, [None] if it is empty. *)
Fixpoint digits (radix : Z) (s : string) (acc : option Z) : option Z :=
  match s with
  | EmptyString => acc
  | String c s' =>
      match digit radix c with
      | Some d =>
          digits radix s'
            (Some (radix * match acc with Some a => a | None => 0 end + d)%Z)
      | None => acc
      end
  end.

(** [parseInt(s)] with no radix argument; [None] is [NaN]. *)
Definition of_string (s : string) : option Z :=
  let s := skip_spaces s in
  let '(sign, s) :=
    match s with
    | String "-" s' => ((-1)%Z, s')
    | String "+" s' => (1%Z, s')
    | _ => (1%Z, s)
    end in
  let magnitude :=
    match s with
    | String "0" (String "x" s') => digits 16 s' None
    | String "0" (String "X" s') => digits 16 s' None
    | _ => digits 10 s None
    end in
  option_map (Z.mul sign) magnitude.

End ParseInt.

(** [parseInt(this.max)]. *)
Definition parseInt (m : MaxProp) : option Z :=
  match m with
  | MaxUndefined => None
  | MaxNumber n => Some n
  | MaxString s => ParseInt.of_string s
  end.

(** [this.max && keys.length > parseInt(this.max)]. *)
Definition over_capacity (m : MaxProp) (keys : list string) : bool :=
  max_truthy m &&
  match parseInt m with
  | Some n => (n <? Z.of_nat (List.length keys))%Z
  | None => false
  end.

(** The instance: its props, the fields set in [created] and [render],
    the host's [_vnode], and whether the watchers of [mounted] are
    registered. *)
Record KeepAlive : Type := mkKeepAlive {
  include : Pattern;
  exclude : Pattern;
  max : MaxProp;
  cache : CacheEntryMap;
  keys : list string;
  vnodeToCache : option loc;
  keyToCache : option string;
  _vnode : option loc;
  watching : bool
}.

(** The world: the vnode heap, the instance, and the [$destroy()] calls
    issued so far. *)
Record World : Type := mkWorld {
  heap : Heap;
  this : KeepAlive;
  destroyed_log : list Component
}.

Definition store_of (w : World) : Store :=
  mkStore (cache (this w)) (keys (this w)) (destroyed_log w).

Definition with_store (w : World) (s : Store) : World :=
  let t := this w in
  mkWorld (heap w)
    (mkKeepAlive (include t) (exclude t) (max t) (st_cache s) (st_keys s)
       (vnodeToCache t) (keyToCache t) (_vnode t) (watching t))
    (st_destroyed s).

Definition current_vnode (w : World) : option VNode.t :=
  option_map (heap w) (_vnode (this w)).

(** [cacheVNode] (lines 75-91).  The result is [None] where an entry
    could not be built at its declared type: a pending vnode whose
    [componentInstance] is still [undefined], or a pending vnode with no
    pending key. *)
Definition cacheVNode (w : World) : option World :=
  let t := this w in
  match vnodeToCache t with
  | None => Some w
  | Some l =>
      let vnode := heap w l in
      match keyToCache t, VNode.componentInstance vnode with
      | Some k, Some componentInstance =>
          let entry :=
            CacheEntry.mk (getComponentName (VNode.componentOptions vnode))
                          (VNode.tag vnode) componentInstance in
          let s := mkStore (cache_set (cache t) k (Some entry))
                           (keys t ++ [k]) (destroyed_log w) in
          let s :=
            if over_capacity (max t) (st_keys s)
            then match st_keys s with
                 | k0 :: _ => pruneCacheEntry s k0 (current_vnode w)
                 | [] => s
                 end
            else s in
          Some (mkWorld (heap w)
                  (mkKeepAlive (include t) (exclude t) (max t)
                     (st_cache s) (st_keys s) None (keyToCache t)
                     (_vnode t) (watching t))
                  (st_destroyed s))
      | _, _ => None
      end
  end.

(** [created] (lines 94-97), on the instance the host has just built
    from its props. *)
Definition created (h : Heap) (inc exc : Pattern) (m : MaxProp) : World :=
  mkWorld h (mkKeepAlive inc exc m [] [] None None None false) [].

(** One turn of the loop of [destroyed]. *)
Definition destroyed_step (s : Store) (key : string) : Store :=
  pruneCacheEntry s key None.

(** [destroyed] (lines 99-104). *)
Definition destroyed (w : World) : World :=
  with_store w
    (fold_left destroyed_step (own_keys (cache (this w))) (store_of w)).

(** The two watcher callbacks of [mounted] (lines 109-114). *)
Definition watch_include (val : Pattern) (w : World) : World :=
  with_store w
    (pruneCache (store_of w) (current_vnode w) (fun name => matches val name)).

Definition watch_exclude (val : Pattern) (w : World) : World :=
  with_store w
    (pruneCache (store_of w) (current_vnode w)
       (fun name => negb (matches val name))).

(** [mounted] (lines 106-115). *)
Definition mounted (w : World) : option World :=
  match cacheVNode w with
  | Some w' =>
      let t := this w' in
      Some (mkWorld (heap w')
              (mkKeepAlive (include t) (exclude t) (max t) (cache t) (keys t)
                 (vnodeToCache t) (keyToCache t) (_vnode t) true)
              (destroyed_log w'))
  | None => None
  end.

(** [updated] (lines 117-119). *)
Definition updated (w : World) : option World := cacheVNode w.

(** Modelled from the spec: [getFirstComponentChild] is imported from
    [core/vdom/helpers] and is not part of this file; it selects the
    single candidate child, the first slot node that is a component (or
    the placeholder of one). *)
Fixpoint getFirstComponentChild (h : Heap) (children : list loc)
  : option loc :=
  match children with
  | [] => None
  | c :: children' =>
      match VNode.componentOptions (h c) with
      | Some _ => Some c
      | None =>
          if VNode.isAsyncPlaceholder (h c) then Some c
          else getFirstComponentChild h children'
      end
  end.

(** The cache key of a candidate (lines 142-146). *)
Definition resolveKey (vnode : VNode.t)
  (componentOptions : VNodeComponentOptions.t) : string :=
  match VNode.key vnode with
  | None =>
      Js.string_of_N (VNodeComponentOptions.Ctor_cid componentOptions)
      ++ (if Js.truthy_str (VNodeComponentOptions.tag componentOptions)
          then match VNodeComponentOptions.tag componentOptions with
               | Some tag => "::" ++ tag
               | None => ""
               end
          else "")
  | Some k => k
  end.

(** The filter check of [render] (lines 131-136). *)
Definition filtered_out (t : KeepAlive) (name : option string) : bool :=
  (pattern_truthy (include t) &&
   (negb (Js.truthy_str name) ||
    negb (match name with
          | Some n => matches (include t) n
          | None => false
          end)))
  || (pattern_truthy (exclude t) && Js.truthy_str name &&
      match name with
      | Some n => matches (exclude t) n
      | None => false
      end).

(** [render] (lines 121-165): the node handed back to the host, and the
    world after the pass. *)
Definition render (slot : option (list loc)) (w : World)
  : option loc * World :=
  let vnode :=
    match slot with
    | Some children => getFirstComponentChild (heap w) children
    | None => None
    end in
  let fallback :=
    match vnode with
    | Some l => Some l
    | None => match slot with
              | Some children => hd_error children
              | None => None
              end
    end in
  match vnode with
  | Some l =>
      let v := heap w l in
      match VNode.componentOptions v with
      | Some componentOptions =>
          let t := this w in
          let name := getComponentName (Some componentOptions) in
          if filtered_out t name then (Some l, w)
          else
            let key := resolveKey v componentOptions in
            let w1 :=
              match cache_get (cache t) key with
              | Some entry =>
                  mkWorld
                    (heap_set (heap w) l
                       (VNode.set_componentInstance
                          (Some (CacheEntry.componentInstance entry)) v))
                    (mkKeepAlive (include t) (exclude t) (max t) (cache t)
                       (remove (keys t) key ++ [key])
                       (vnodeToCache t) (keyToCache t) (_vnode t)
                       (watching t))
                    (destroyed_log w)
              | None =>
                  mkWorld (heap w)
                    (mkKeepAlive (include t) (exclude t) (max t) (cache t)
                       (keys t) (Some l) (Some key) (_vnode t) (watching t))
                    (destroyed_log w)
              end in
            (Some l,
             mkWorld
               (heap_set (heap w1) l (VNode.set_keepAlive true (heap w1 l)))
               (this w1) (destroyed_log w1))
      | None => (fallback, w)
      end
  | None => (fallback, w)
  end.

(** ** The host driving the component

    What the host does around the hooks: it records the node returned by
    [render] as [this._vnode], instantiates vnodes, fires the lifecycle
    hooks, and calls a watcher (once [mounted] has registered it) when it
    replaces the watched prop. *)
Inductive Event : Type :=
| EvRender (slot : option (list loc))
| EvInstantiate (l : loc) (i : Component)
| EvMounted
| EvUpdated
| EvInclude (val : Pattern)
| EvExclude (val : Pattern)
| EvDestroyed.

Definition set_vnode (r : option loc) (w : World) : World :=
  let t := this w in
  mkWorld (heap w)
    (mkKeepAlive (include t) (exclude t) (max t) (cache t) (keys t)
       (vnodeToCache t) (keyToCache t) r (watching t))
    (destroyed_log w).

Definition set_include (p : Pattern) (w : World) : World :=
  let t := this w in
  mkWorld (heap w)
    (mkKeepAlive p (exclude t) (max t) (cache t) (keys t)
       (vnodeToCache t) (keyToCache t) (_vnode t) (watching t))
    (destroyed_log w).

Definition set_exclude (p : Pattern) (w : World) : World :=
  let t := this w in
  mkWorld (heap w)
    (mkKeepAlive (include t) p (max t) (cache t) (keys t)
       (vnodeToCache t) (keyToCache t) (_vnode t) (watching t))
    (destroyed_log w).

Definition step (e : Event) (w : World) : option World :=
  match e with
  | EvRender slot =>
      let '(r, w') := render slot w in Some (set_vnode r w')
  | EvInstantiate l i =>
      Some (mkWorld
              (heap_set (heap w) l
                 (VNode.set_componentInstance (Some i) (heap w l)))
              (this w) (destroyed_log w))
  | EvMounted => mounted w
  | EvUpdated => updated w
  | EvInclude val =>
      let w' := set_include val w in
      Some (if watching (this w) then watch_include val w' else w')
  | EvExclude val =>
      let w' := set_exclude val w in
      Some (if watching (this w) then watch_exclude val w' else w')
  | EvDestroyed => Some (destroyed w)
  end.

Fixpoint run (evs : list Event) (w : World) : option World :=
  match evs with
  | [] => Some w
  | e :: evs' =>
      match step e w with
      | Some w' => run evs' w'
      | None => None
      end
  end.

(** A component vnode as the host builds it, not yet instantiated. *)
Definition component_vnode (key : option string) (tag : string) (cid : N)
  (name : option string) (ctag : option string) : VNode.t :=
  VNode.mk key (Some tag) None
    (Some (VNodeComponentOptions.mk cid name ctag)) false false.

Definition empty_vnode : VNode.t := VNode.mk None None None None false false.

(** * Vocabulary of the properties *)

(** Whether the loop of [pruneCache] evicts the entry under [k]: it is
    live, has a (truthy) name, and the filter rejects the name. *)
Definition prunes (filter : string -> bool) (c : CacheEntryMap) (k : string)
  : bool :=
  match cache_get c k with
  | Some e =>
      match CacheEntry.name e with
      | Some n => Js.truthy_str (Some n) && negb (filter n)
      | None => false
      end
  | None => false
  end.

(** The tag of a candidate as the resolver sees it: a tag that is absent
    or empty is no tag. *)
Definition present_tag (co : VNodeComponentOptions.t) : option string :=
  if Js.truthy_str (VNodeComponentOptions.tag co)
  then VNodeComponentOptions.tag co else None.

(** A name matches a pattern when it is a (truthy) name and [matches]
    holds of it. *)
Definition name_matches (p : Pattern) (name : option string) : bool :=
  match name with
  | Some n => Js.truthy_str (Some n) && matches p n
  | None => false
  end.

(** The candidate fails the filter check: an include spec is set and the
    name does not match it, or an exclude spec is set and the name
    matches it. *)
Definition fails_filter (t : KeepAlive) (name : option string) : Prop :=
  (pattern_truthy (include t) = true /\ name_matches (include t) name = false)
  \/ (pattern_truthy (exclude t) = true
      /\ name_matches (exclude t) name = true).

(** The entry [cacheVNode] builds from a vnode and its instance. *)
Definition entry_of (v : VNode.t) (i : Component) : CacheEntry.t :=
  CacheEntry.mk (getComponentName (VNode.componentOptions v)) (VNode.tag v) i.

(** The [$destroy()] calls that lead from the store [s] to [s'] are all
    made on instances of entries of [s] satisfying [P]. *)
Definition calls_from (P : string -> CacheEntry.t -> Prop) (s s' : Store)
  : Prop :=
  exists calls,
    st_destroyed s' = st_destroyed s ++ calls
    /\ Forall (fun i => exists k e,
                   cache_get (st_cache s) k = Some e
                   /\ CacheEntry.componentInstance e = i
                   /\ P k e) calls.

(** The instance of an entry is the one rendered by the current node. *)
Definition is_active (e : CacheEntry.t) (cur : VNode.t) : Prop :=
  VNode.componentInstance cur = Some (CacheEntry.componentInstance e).

(** An entry is held by the cache of [w], or is the one [cacheVNode] is
    about to build from the pending node. *)
Definition cached_or_pending (w : World) (e : CacheEntry.t) : Prop :=
  (exists k, cache_get (cache (this w)) k = Some e)
  \/ (exists l i,
         vnodeToCache (this w) = Some l
         /\ VNode.componentInstance (heap w l) = Some i
         /\ e = entry_of (heap w l) i).

(** The live keys of the cache object, in the order the teardown loop
    meets them, and the entries they hold. *)
Definition live_keys (c : CacheEntryMap) : list string :=
  List.filter (fun k => match cache_get c k with
                        | Some _ => true
                        | None => false
                        end) (own_keys c).

(** The instances held under the keys [ks], in order. *)
Definition instances_at (c : CacheEntryMap) (ks : list string)
  : list Component :=
  flat_map (fun k => match cache_get c k with
                     | Some e => [CacheEntry.componentInstance e]
                     | None => []
                     end) ks.

(** The cache object has one property per name, the key sequence has no
    duplicates, and its members are exactly the live keys. *)
Definition store_ok (c : CacheEntryMap) (ks : list string) : Prop :=
  NoDup (map fst c)
  /\ NoDup ks
  /\ forall k, In k ks <-> cache_get c k <> None.

(** The number of live entries of the cache object. *)
Definition live_count (c : CacheEntryMap) : nat :=
  List.length (List.filter (fun kv => match snd kv with
                                      | Some _ => true
                                      | None => false
                                      end) c).

(** From [s] to [s'] the store only loses entries. *)
Definition shrinks (s s' : Store) : Prop :=
  (store_ok (st_cache s) (st_keys s) -> store_ok (st_cache s') (st_keys s'))
  /\ List.length (st_keys s') <= List.length (st_keys s)
  /\ (forall k, cache_get (st_cache s) k = None ->
                cache_get (st_cache s') k = None).

(** A pending node waits under a key that is not live. *)
Definition pending_ok (t : KeepAlive) : Prop :=
  forall l, vnodeToCache t = Some l ->
            exists k, keyToCache t = Some k /\ cache_get (cache t) k = None.

(** The invariant of a component created with the [max] prop [m]: the
    prop is still [m], the store is consistent, the pending key is not
    live, and the key sequence is no longer than the bound that [m]
    sets, if it sets one. *)
Definition Inv (m : MaxProp) (w : World) : Prop :=
  max (this w) = m
  /\ store_ok (cache (this w)) (keys (this w))
  /\ pending_ok (this w)
  /\ forall n,
       max_truthy m = true -> parseInt m = Some n ->
       (Z.of_nat (List.length (keys (this w))) <= Z.max 0 n)%Z.

(** * Example data *)

(** The regular expression [/^x/]. *)
Definition re_caret_x : Js.RegExp := Js.mkRegExp true (Js.ReChar "x") false.

(** Two candidates of the constructor 7, registered as [foo] and [bar]. *)
Definition two_tags_of_one_ctor : VNode.t * VNode.t :=
  (component_vnode None "vue-component-7-foo" 7 None (Some "foo"),
   component_vnode None "vue-component-7-bar" 7 None (Some "bar")).

(** A component that excludes the names A and B, about to render A. *)
Definition excluded_world : World :=
  created (fun _ => component_vnode None "vue-component-1-A" 1 (Some "A") None)
    (POther false) (PString "A,B") MaxUndefined.

(** Two components, A and B, rendered under one explicit key. *)
Definition shared_key_heap : Heap :=
  fun l => match l with
  | 0 => component_vnode (Some "k") "vue-component-1-A" 1 (Some "A") None
  | _ => component_vnode (Some "k") "vue-component-2-B" 2 (Some "B") None
  end.

(** A is rendered, mounted and cached; B is rendered under the same key,
    which is a hit; then the include pattern is replaced by ["B"]. *)
Definition shared_key_trace : list Event :=
  [EvRender (Some [0]); EvInstantiate 0 10; EvMounted;
   EvRender (Some [1]); EvUpdated; EvInclude (PArray ["B"])].

(** A mounted component holding one entry without a name. *)
Definition nameless_world : World :=
  mkWorld (fun _ => empty_vnode)
    (mkKeepAlive (POther false) (POther false) MaxUndefined
       [("5", Some (CacheEntry.mk None (Some "vue-component-5") 50))]
       ["5"] None None None true)
    [].

(** The nodes of three components named A, B and C. *)
Definition abc_heap : Heap :=
  fun l => match l with
  | 0 => component_vnode None "vue-component-1-A" 1 (Some "A") (Some "a")
  | 1 => component_vnode None "vue-component-2-B" 2 (Some "B") (Some "b")
  | 2 => component_vnode None "vue-component-3-C" 3 (Some "C") (Some "c")
  | _ => empty_vnode
  end.

(** The components named A, B and C are rendered, mounted and cached in
    turn. *)
Definition abc_cached : list Event :=
  [EvRender (Some [0]); EvInstantiate 0 10; EvMounted;
   EvRender (Some [1]); EvInstantiate 1 11; EvUpdated;
   EvRender (Some [2]); EvInstantiate 2 12; EvUpdated].

(** The keys and, for each of the three cache keys, the name of the
    entry it holds. *)
Definition abc_view (w : World) : list string * list (option (option string)) :=
  (keys (this w),
   map (fun k => option_map CacheEntry.name (cache_get (cache (this w)) k))
     ["1::a"; "2::b"; "3::c"]).

(** The world the run [abc_cached] ends in, written out. *)
Definition abc_world : World :=
  mkWorld abc_heap
    (mkKeepAlive (POther false) (POther false) MaxUndefined
       [("1::a", Some (entry_of (abc_heap 0) 10));
        ("2::b", Some (entry_of (abc_heap 1) 11));
        ("3::c", Some (entry_of (abc_heap 2) 12))]
       ["1::a"; "2::b"; "3::c"] None (Some "3::c") (Some 2) true)
    [].

(** A node with an explicit key. *)
Definition keyed_vnode (k : string) (cid : N) : VNode.t :=
  component_vnode (Some k)
    ("vue-component-" ++ Js.string_of_N cid)%string cid None None.

(** Nodes for the keys A, B, C, a second node for A, and a node for D. *)
Definition lru_heap (kA kB kC kD : string) : Heap :=
  fun l => match l with
  | 0 => keyed_vnode kA 1
  | 1 => keyed_vnode kB 2
  | 2 => keyed_vnode kC 3
  | 3 => keyed_vnode kA 1
  | 4 => keyed_vnode kD 4
  | _ => empty_vnode
  end.

(** admit(A), admit(B), admit(C), lookup(A). *)
Definition lru_prefix : list Event :=
  [EvRender (Some [0]); EvInstantiate 0 10; EvMounted;
   EvRender (Some [1]); EvInstantiate 1 11; EvUpdated;
   EvRender (Some [2]); EvInstantiate 2 12; EvUpdated;
   EvRender (Some [3]); EvUpdated].

(** admit(D). *)
Definition lru_admit_D : list Event :=
  [EvRender (Some [4]); EvInstantiate 4 14; EvUpdated].

(** A component created with [max = 3]. *)
Definition lru_start (kA kB kC kD : string) : World :=
  created (lru_heap kA kB kC kD) (POther false) (POther false) (MaxNumber 3).

(** A component created without filters and without bound. *)
Definition abc_start : World :=
  created abc_heap (POther false) (POther false) MaxUndefined.

(** The key sequence, the instance held under each of the given keys,
    and the destroy calls. *)
Definition lru_view (ks : list string) (w : World)
  : list string * list (option Component) * list Component :=
  (keys (this w),
   map (fun k => option_map CacheEntry.componentInstance
                   (cache_get (cache (this w)) k)) ks,
   destroyed_log w).

(** The world after admit(A), admit(B), admit(C), lookup(A), admit(D). *)
Definition lru_final : World :=
  match run (lru_prefix ++ lru_admit_D) (lru_start "A" "B" "C" "D") with
  | Some w => w
  | None => lru_start "A" "B" "C" "D"
  end.

(** The world [abc_start] after the node of A was rendered, which is a
    miss, and instantiated: the node waits in the pending slot. *)
Definition abc_pending : World :=
  mkWorld
    (heap_set abc_heap 0
       (VNode.set_componentInstance (Some 10)
          (VNode.set_keepAlive true (abc_heap 0))))
    (mkKeepAlive (POther false) (POther false) MaxUndefined
       [] [] (Some 0) (Some "1::a") (Some 0) false)
    [].

(** A component created with [max = "0"], and the world it is in after
    A, B and C were rendered, mounted and offered to the cache. *)
Definition zero_start : World :=
  created abc_heap (POther false) (POther false) (MaxString "0").

Definition zero_final : World :=
  match run abc_cached zero_start with
  | Some w => w
  | None => zero_start
  end.

(** A component whose slot holds two plain nodes and no component. *)
Definition plain_world : World :=
  created (fun _ => empty_vnode) (POther false) (POther false) MaxUndefined.

(** A component with an include pattern, about to render a candidate
    that has neither a name nor a tag. *)
Definition anonymous_world : World :=
  created (fun _ => component_vnode None "vue-component-9" 9 None None)
    (PRegExp re_caret_x) (POther false) MaxUndefined.


(** * Properties *)

(** ** Strings and lists *)

Lemma string_app_inv_head (s a b : string) :
  (s ++ a)%string = (s ++ b)%string -> a = b.
Proof.
  induction s as [|c s IH]; simpl; intros H.
  - exact H.
  - injection H as H. auto.
Qed.

Lemma includes_In (l : list string) (name : string) :
  Js.includes l name = true <-> In name l.
Proof.
  induction l as [|x l IH]; simpl.
  - split; [discriminate | tauto].
  - destruct (String.eqb_spec x name) as [->|Hne].
    + split; auto.
    + rewrite IH. split; [auto | intros [H|H]; [congruence | exact H]].
Qed.

Lemma filter_all_true {A : Type} (l : list A) :
  List.filter (fun _ => true) l = l.
Proof. induction l as [|x l IH]; simpl; [|f_equal]; auto. Qed.

Lemma filter_twice {A : Type} (f g h : A -> bool) (l : list A) :
  (forall x, h x = g x && f x) ->
  List.filter f (List.filter g l) = List.filter h l.
Proof.
  intros H. induction l as [|x l IH]; simpl; [reflexivity|].
  rewrite H. destruct (g x); simpl; [destruct (f x)|]; rewrite IH;
    reflexivity.
Qed.

Section Remove.

Lemma remove_In (arr : list string) (item x : string) :
  In x (remove arr item) -> In x arr.
Proof.
  induction arr as [|y arr IH]; simpl; [tauto|].
  destruct (String.eqb_spec y item); simpl; intuition.
Qed.

Lemma remove_In_other (arr : list string) (item x : string) :
  x <> item -> In x arr -> In x (remove arr item).
Proof.
  intros Hne. induction arr as [|y arr IH]; simpl; [tauto|].
  destruct (String.eqb_spec y item) as [->|Hy]; simpl.
  - intros [H|H]; [congruence | exact H].
  - intros [H|H]; auto.
Qed.

Lemma remove_absent (arr : list string) (item : string) :
  ~ In item arr -> remove arr item = arr.
Proof.
  induction arr as [|y arr IH]; simpl; [reflexivity|].
  intros H. destruct (String.eqb_spec y item) as [->|Hy].
  - tauto.
  - f_equal. apply IH. tauto.
Qed.

Lemma remove_NoDup (arr : list string) (item : string) :
  NoDup arr -> NoDup (remove arr item).
Proof.
  induction 1 as [|y arr Hy Hnd IH]; simpl; [constructor|].
  destruct (String.eqb_spec y item); [exact Hnd|].
  constructor; [|exact IH]. intros H. apply Hy. eapply remove_In; eauto.
Qed.

Lemma remove_NoDup_absent (arr : list string) (item : string) :
  NoDup arr -> ~ In item (remove arr item).
Proof.
  induction 1 as [|y arr Hy Hnd IH]; simpl; [tauto|].
  destruct (String.eqb_spec y item) as [->|Hne]; [exact Hy|].
  simpl. intros [H|H]; [congruence | tauto].
Qed.

Lemma remove_length (arr : list string) (item : string) :
  In item arr -> S (List.length (remove arr item)) = List.length arr.
Proof.
  induction arr as [|y arr IH]; simpl; [tauto|].
  destruct (String.eqb_spec y item) as [->|Hne]; [reflexivity|].
  intros [H|H]; [congruence|]. simpl. f_equal. auto.
Qed.

(** On a sequence without duplicates, [remove] is a filter. *)
Lemma remove_filter (arr : list string) (item : string) :
  NoDup arr ->
  remove arr item = filter (fun x => negb (String.eqb x item)) arr.
Proof.
  induction 1 as [|y arr Hy Hnd IH]; simpl; [reflexivity|].
  destruct (String.eqb_spec y item) as [->|Hne]; simpl.
  - rewrite <- IH. symmetry. apply remove_absent. exact Hy.
  - f_equal. exact IH.
Qed.

Lemma remove_head (x : string) (arr : list string) :
  remove (x :: arr) x = arr.
Proof. simpl. rewrite String.eqb_refl. reflexivity. Qed.

End Remove.

(** ** The cache object *)

Section CacheObject.

Lemma cache_get_set_same (c : CacheEntryMap) (k : string)
  (v : option CacheEntry.t) : cache_get (cache_set c k v) k = v.
Proof.
  induction c as [|[k0 v0] c IH]; simpl.
  - rewrite String.eqb_refl. reflexivity.
  - destruct (String.eqb_spec k0 k) as [->|Hne]; simpl.
    + rewrite String.eqb_refl. reflexivity.
    + destruct (String.eqb_spec k0 k); [congruence | exact IH].
Qed.

Lemma cache_get_set_other (c : CacheEntryMap) (k k' : string)
  (v : option CacheEntry.t) :
  k <> k' -> cache_get (cache_set c k v) k' = cache_get c k'.
Proof.
  intros Hne. induction c as [|[k0 v0] c IH]; simpl.
  - destruct (String.eqb_spec k k'); [congruence | reflexivity].
  - destruct (String.eqb_spec k0 k) as [->|Hk]; simpl.
    + destruct (String.eqb_spec k k'); [congruence | reflexivity].
    + destruct (String.eqb_spec k0 k'); [reflexivity | exact IH].
Qed.

Lemma cache_set_names (c : CacheEntryMap) (k : string)
  (v : option CacheEntry.t) :
  map fst (cache_set c k v)
  = if Js.includes (map fst c) k then map fst c else map fst c ++ [k].
Proof.
  induction c as [|[k0 v0] c IH]; simpl; [reflexivity|].
  destruct (String.eqb_spec k0 k) as [->|Hk]; simpl; [reflexivity|].
  rewrite IH. destruct (Js.includes (map fst c) k); reflexivity.
Qed.

Lemma cache_set_In (c : CacheEntryMap) (k : string)
  (v : option CacheEntry.t) (x : string) :
  In x (map fst (cache_set c k v)) <-> x = k \/ In x (map fst c).
Proof.
  rewrite cache_set_names.
  destruct (Js.includes (map fst c) k) eqn:E.
  - apply includes_In in E. split; [auto | intros [->|H]; auto].
  - rewrite in_app_iff. simpl. intuition.
Qed.

Lemma cache_set_NoDup (c : CacheEntryMap) (k : string)
  (v : option CacheEntry.t) :
  NoDup (map fst c) -> NoDup (map fst (cache_set c k v)).
Proof.
  intros Hnd. rewrite cache_set_names.
  destruct (Js.includes (map fst c) k) eqn:E; [exact Hnd|].
  assert (~ In k (map fst c)) as Hk.
  { intros H. apply includes_In in H. congruence. }
  clear E. induction (map fst c) as [|y l IH]; simpl.
  - constructor; [tauto | constructor].
  - inversion Hnd; subst. constructor.
    + rewrite in_app_iff. simpl in *. intuition.
    + apply IH; simpl in *; tauto.
Qed.

Lemma cache_get_live_In (c : CacheEntryMap) (k : string)
  (e : CacheEntry.t) : cache_get c k = Some e -> In k (map fst c).
Proof.
  induction c as [|[k0 v0] c IH]; simpl; [discriminate|].
  destruct (String.eqb_spec k0 k); auto.
Qed.

End CacheObject.

(** ** Enumeration order of the cache object *)

Section OwnKeys.

Lemma insert_sorted_perm (n : N) (l : list N) :
  Permutation (insert_sorted n l) (n :: l).
Proof.
  induction l as [|m l IH]; simpl; [reflexivity|].
  destruct (n <=? m)%N; [reflexivity|].
  rewrite IH. apply perm_swap.
Qed.

Lemma sort_N_perm (l : list N) : Permutation (sort_N l) l.
Proof.
  induction l as [|n l IH]; simpl; [reflexivity|].
  rewrite insert_sorted_perm. constructor. exact IH.
Qed.

Lemma array_index_sound (s : string) (n : N) :
  array_index s = Some n -> Js.string_of_N n = s.
Proof.
  unfold array_index. destruct (NilZero.uint_of_string s) as [u|]; [|discriminate].
  destruct (String.eqb_spec (Js.string_of_N (N.of_uint u)) s) as [E|E];
    simpl; [|discriminate].
  destruct (N.of_uint u <? 4294967295)%N; [|discriminate].
  intros H. injection H as <-. exact E.
Qed.

Lemma partition_perm {A : Type} (p : A -> bool) (l : list A) :
  Permutation (filter p l ++ filter (fun x => negb (p x)) l) l.
Proof.
  induction l as [|x l IH]; simpl; [reflexivity|].
  destruct (p x); simpl.
  - constructor. exact IH.
  - symmetry. apply Permutation_cons_app. symmetry. exact IH.
Qed.

(** The loop visits every own property exactly once. *)
Lemma own_keys_perm (c : CacheEntryMap) :
  Permutation (own_keys c) (map fst c).
Proof.
  unfold own_keys. set (names := map fst c).
  rewrite <- (partition_perm
                (fun k => match array_index k with
                          | Some _ => true
                          | None => false
                          end) names) at 3.
  apply Permutation_app.
  - rewrite (Permutation_map Js.string_of_N (sort_N_perm _)).
    induction names as [|k names IH]; simpl; [reflexivity|].
    destruct (array_index k) as [n|] eqn:E; simpl.
    + rewrite (array_index_sound _ _ E). constructor. exact IH.
    + exact IH.
  - induction names as [|k names IH]; simpl; [reflexivity|].
    destruct (array_index k); simpl; [exact IH|].
    constructor. exact IH.
Qed.

Lemma own_keys_In (c : CacheEntryMap) (k : string) :
  In k (own_keys c) <-> In k (map fst c).
Proof.
  split; apply Permutation_in;
    [apply own_keys_perm | symmetry; apply own_keys_perm].
Qed.

Lemma own_keys_NoDup (c : CacheEntryMap) :
  NoDup (map fst c) -> NoDup (own_keys c).
Proof.
  intros H. eapply Permutation_NoDup; [|exact H].
  symmetry. apply own_keys_perm.
Qed.

End OwnKeys.

(** ** The prune loop *)

Section PruneLoop.

Variable filter : string -> bool.
Variable current : option VNode.t.

Lemma pruneCache_step_unfold (s : Store) (k : string) :
  pruneCache_step filter current s k = if prunes filter (st_cache s) k
             then pruneCacheEntry s k current else s.
Proof.
  unfold pruneCache_step, prunes.
  destruct (cache_get (st_cache s) k) as [e|]; [|reflexivity].
  destruct (CacheEntry.name e); reflexivity.
Qed.

Lemma pruneCache_step_cache (s : Store) (k0 k : string) :
  cache_get (st_cache (pruneCache_step filter current s k0)) k
  = if String.eqb k0 k && prunes filter (st_cache s) k0
    then None else cache_get (st_cache s) k.
Proof.
  rewrite pruneCache_step_unfold.
  destruct (prunes filter (st_cache s) k0); simpl.
  - destruct (String.eqb_spec k0 k) as [->|Hne]; simpl.
    + apply cache_get_set_same.
    + apply cache_get_set_other. exact Hne.
  - rewrite andb_false_r. reflexivity.
Qed.

Lemma pruneCache_step_prunes (s : Store) (k0 k : string) :
  prunes filter (st_cache (pruneCache_step filter current s k0)) k
  = negb (String.eqb k0 k) && prunes filter (st_cache s) k.
Proof.
  unfold prunes at 1. rewrite pruneCache_step_cache.
  destruct (String.eqb_spec k0 k) as [->|Hne]; simpl.
  - destruct (prunes filter (st_cache s) k) eqn:E; [reflexivity | exact E].
  - reflexivity.
Qed.

(** The store after the loop has visited the keys [ks]. *)
Lemma prune_loop_cache (ks : list string) (s : Store) (k : string) :
  cache_get (st_cache (fold_left (pruneCache_step filter current) ks s)) k
  = if Js.includes ks k && prunes filter (st_cache s) k
    then None else cache_get (st_cache s) k.
Proof.
  revert s. induction ks as [|k0 ks IH]; intros s; simpl; [reflexivity|].
  rewrite IH, pruneCache_step_prunes, pruneCache_step_cache.
  destruct (String.eqb_spec k0 k) as [->|Hne]; simpl.
  - rewrite andb_false_r.
    destruct (prunes filter (st_cache s) k); reflexivity.
  - reflexivity.
Qed.

Lemma prune_loop_keys (ks : list string) (s : Store) :
  NoDup (st_keys s) ->
  st_keys (fold_left (pruneCache_step filter current) ks s)
  = List.filter
      (fun k => negb (Js.includes ks k && prunes filter (st_cache s) k))
      (st_keys s).
Proof.
  revert s. induction ks as [|k0 ks IH]; intros s Hnd; simpl.
  - symmetry. apply filter_all_true.
  - assert (NoDup (st_keys (pruneCache_step filter current s k0))) as Hnd'.
    { rewrite pruneCache_step_unfold.
      destruct (prunes filter (st_cache s) k0); simpl;
        [apply remove_NoDup|]; exact Hnd. }
    rewrite (IH _ Hnd').
    rewrite (filter_ext _ _ (fun k =>
      f_equal negb (f_equal (andb (Js.includes ks k))
                      (pruneCache_step_prunes s k0 k)))).
    rewrite pruneCache_step_unfold.
    destruct (prunes filter (st_cache s) k0) eqn:E0; simpl.
    + rewrite (remove_filter _ _ Hnd). apply filter_twice. intros x.
      rewrite (String.eqb_sym x k0).
      destruct (String.eqb_spec k0 x) as [->|Hne]; simpl;
        [rewrite E0|]; reflexivity.
    + apply filter_ext. intros x.
      destruct (String.eqb_spec k0 x) as [->|Hne]; simpl;
        [rewrite E0, andb_false_r|]; reflexivity.
Qed.

End PruneLoop.

(** ** Pattern matcher *)

(** C8: [matches pattern name] holds exactly when the pattern is a list
    containing the name, or a string one of whose comma-separated parts
    is the name, or a regular expression that tests positively against
    the name; on every other shape it is false; being a total function it
    never throws.  The four entries of the pattern matcher table hold. *)
Theorem matches_spec :
  (forall pattern name,
      matches pattern name = true <->
      (exists l, pattern = PArray l /\ In name l)
      \/ (exists s, pattern = PString s /\ In name (Js.split "," s))
      \/ (exists r, pattern = PRegExp r /\ Js.test r name = true))
  /\ (forall b name, matches (POther b) name = false)
  /\ matches (PArray ["a"; "b"]) "a" = true
  /\ matches (PString "a,b") "c" = false
  /\ matches (PRegExp re_caret_x) "xyz" = true
  /\ matches (PRegExp re_caret_x) "yz" = false.
Proof.
  split; [|repeat split].
  intros pattern name. destruct pattern as [l|s|r|b]; simpl.
  - rewrite includes_In. split.
    + intros H. left. exists l. auto.
    + intros [(l' & E & H)|[(s & E & _)|(r & E & _)]];
        [injection E as <-; exact H | discriminate | discriminate].
  - rewrite includes_In. split.
    + intros H. right. left. exists s. auto.
    + intros [(l' & E & _)|[(s' & E & H)|(r & E & _)]];
        [discriminate | injection E as <-; exact H | discriminate].
  - split.
    + intros H. right. right. exists r. auto.
    + intros [(l' & E & _)|[(s' & E & _)|(r' & E & H)]];
        [discriminate | discriminate | injection E as <-; exact H].
  - split; [discriminate|].
    intros [(l' & E & _)|[(s' & E & _)|(r' & E & _)]]; discriminate.
Qed.

(** ** Identity resolver *)

(** C4: a candidate with an explicit key resolves to that key; without
    one it resolves to the constructor id followed by "::" and the tag
    when a tag is present, and to the constructor id alone otherwise; so
    two candidates without explicit keys, of one constructor and with
    different tags, resolve to different keys. *)
Theorem resolveKey_spec :
  (forall v co k, VNode.key v = Some k -> resolveKey v co = k)
  /\ (forall v co tag,
         VNode.key v = None -> present_tag co = Some tag ->
         resolveKey v co
         = (Js.string_of_N (VNodeComponentOptions.Ctor_cid co)
            ++ "::" ++ tag)%string)
  /\ (forall v co,
         VNode.key v = None -> present_tag co = None ->
         resolveKey v co
         = Js.string_of_N (VNodeComponentOptions.Ctor_cid co))
  /\ (forall v1 co1 v2 co2,
         VNode.key v1 = None -> VNode.key v2 = None ->
         VNodeComponentOptions.Ctor_cid co1
         = VNodeComponentOptions.Ctor_cid co2 ->
         present_tag co1 <> present_tag co2 ->
         resolveKey v1 co1 <> resolveKey v2 co2).
Proof.
  assert (forall s, (s ++ "")%string = s) as app_empty.
  { induction s as [|c s IH]; simpl; [|rewrite IH]; reflexivity. }
  assert (forall v co,
             VNode.key v = None ->
             resolveKey v co
             = (Js.string_of_N (VNodeComponentOptions.Ctor_cid co)
                ++ match present_tag co with
                   | Some tag => "::" ++ tag
                   | None => ""
                   end)%string) as shape.
  { intros v co Hk. unfold resolveKey, present_tag. rewrite Hk.
    destruct (Js.truthy_str (VNodeComponentOptions.tag co)) eqn:E;
      [|reflexivity].
    destruct (VNodeComponentOptions.tag co); [reflexivity | discriminate]. }
  repeat split.
  - intros v co k Hk. unfold resolveKey. rewrite Hk. reflexivity.
  - intros v co tag Hk Ht. rewrite (shape _ _ Hk), Ht. reflexivity.
  - intros v co Hk Ht. rewrite (shape _ _ Hk), Ht. apply app_empty.
  - intros v1 co1 v2 co2 Hk1 Hk2 Hcid Htag.
    rewrite (shape _ _ Hk1), (shape _ _ Hk2), Hcid. intros H.
    apply string_app_inv_head in H. apply Htag.
    destruct (present_tag co1), (present_tag co2); simpl in H;
      try discriminate; [|reflexivity].
    injection H as ->. reflexivity.
Qed.

Lemma resolveKey_spec_witness :
  resolveKey (fst two_tags_of_one_ctor)
    (VNodeComponentOptions.mk 7 None (Some "foo")) = "7::foo"
  /\ resolveKey (snd two_tags_of_one_ctor)
       (VNodeComponentOptions.mk 7 None (Some "bar")) = "7::bar"
  /\ resolveKey (fst two_tags_of_one_ctor)
       (VNodeComponentOptions.mk 7 None (Some "foo"))
     <> resolveKey (snd two_tags_of_one_ctor)
          (VNodeComponentOptions.mk 7 None (Some "bar")).
Proof.
  split; [reflexivity | split; [reflexivity|]].
  apply (proj2 (proj2 (proj2 resolveKey_spec))); try reflexivity.
  simpl. discriminate.
Defined.

(** ** Render pass *)

Lemma filtered_out_iff (t : KeepAlive) (name : option string) :
  filtered_out t name = true <-> fails_filter t name.
Proof.
  unfold filtered_out, fails_filter, name_matches.
  destruct name as [[|c n]|]; simpl;
    destruct (pattern_truthy (include t)), (pattern_truthy (exclude t));
    simpl;
    try destruct (matches (include t) (String c n));
    try destruct (matches (exclude t) (String c n));
    simpl; intuition congruence.
Qed.

(** C9: when the candidate of a render pass fails the filter check, the
    pass hands the candidate back and leaves the whole world as it was:
    the node (its instance reference and its caching flag), the cache
    store, the ordered key sequence and the pending-cache slot. *)
Theorem render_filtered_out_unchanged
  (children : list loc) (w : World) (l : loc)
  (co : VNodeComponentOptions.t) :
  getFirstComponentChild (heap w) children = Some l ->
  VNode.componentOptions (heap w l) = Some co ->
  fails_filter (this w) (getComponentName (Some co)) ->
  render (Some children) w = (Some l, w)
  /\ VNode.componentInstance (heap (snd (render (Some children) w)) l)
     = VNode.componentInstance (heap w l)
  /\ VNode.data_keepAlive (heap (snd (render (Some children) w)) l)
     = VNode.data_keepAlive (heap w l)
  /\ cache (this (snd (render (Some children) w))) = cache (this w)
  /\ keys (this (snd (render (Some children) w))) = keys (this w)
  /\ vnodeToCache (this (snd (render (Some children) w)))
     = vnodeToCache (this w)
  /\ keyToCache (this (snd (render (Some children) w)))
     = keyToCache (this w).
Proof.
  intros Hc Hco Hf. apply filtered_out_iff in Hf.
  assert (render (Some children) w = (Some l, w)) as E.
  { unfold render. rewrite Hc, Hco, Hf. reflexivity. }
  rewrite E. repeat split.
Qed.

Lemma render_filtered_out_unchanged_witness :
  render (Some [0]) excluded_world = (Some 0, excluded_world).
Proof.
  apply (render_filtered_out_unchanged [0] excluded_world 0
           (VNodeComponentOptions.mk 1 (Some "A") None)).
  - reflexivity.
  - reflexivity.
  - right. split; reflexivity.
Defined.

Lemma render_cache (slot : option (list loc)) (w : World) :
  cache (this (snd (render slot w))) = cache (this w)
  /\ destroyed_log (snd (render slot w)) = destroyed_log w.
Proof.
  unfold render.
  destruct slot as [children|]; [|split; reflexivity].
  destruct (getFirstComponentChild (heap w) children) as [l|];
    [|split; reflexivity].
  destruct (VNode.componentOptions (heap w l)) as [co|];
    [|split; reflexivity].
  destruct (filtered_out (this w) (getComponentName (Some co)));
    [split; reflexivity|].
  destruct (cache_get (cache (this w)) (resolveKey (heap w l) co));
    split; reflexivity.
Qed.

(** ** Destruction and the current node *)

Lemma strict_eq_str_spec (a b : option string) :
  strict_eq_str a b = true <-> a = b.
Proof.
  destruct a as [x|], b as [y|]; simpl; try (split; congruence).
  destruct (String.eqb_spec x y); split; congruence.
Qed.

Lemma destroys_current (e : CacheEntry.t) (cur : VNode.t) :
  destroys (Some e) (Some cur) = true <-> CacheEntry.tag e <> VNode.tag cur.
Proof.
  simpl. rewrite negb_true_iff, <- not_true_iff_false, strict_eq_str_spec.
  tauto.
Qed.

Lemma calls_from_refl (P : string -> CacheEntry.t -> Prop) (s : Store) :
  calls_from P s s.
Proof. exists []. split; [symmetry; apply app_nil_r | constructor]. Qed.

Lemma calls_from_weaken (P Q : string -> CacheEntry.t -> Prop)
  (s s' : Store) :
  (forall k e, cache_get (st_cache s) k = Some e -> P k e -> Q k e) ->
  calls_from P s s' -> calls_from Q s s'.
Proof.
  intros H (calls & E & F). exists calls. split; [exact E|].
  eapply Forall_impl; [|exact F]. simpl.
  intros i (k & e & Hk & Hi & Hp). exists k, e. auto.
Qed.

Lemma pruneCacheEntry_calls (s : Store) (key : string)
  (current : option VNode.t) :
  calls_from (fun k e => k = key /\ destroys (Some e) current = true)
             s (pruneCacheEntry s key current).
Proof.
  unfold pruneCacheEntry, calls_from. simpl.
  destruct (cache_get (st_cache s) key) as [e|] eqn:E.
  - destruct (destroys (Some e) current) eqn:D.
    + exists [CacheEntry.componentInstance e]. split; [reflexivity|].
      constructor; [|constructor]. exists key, e. auto.
    + exists []. split; [symmetry; apply app_nil_r | constructor].
  - exists []. split; [symmetry; apply app_nil_r | constructor].
Qed.

Lemma prune_loop_calls (filter : string -> bool) (current : option VNode.t)
  (ks : list string) (s : Store) :
  calls_from (fun k e => prunes filter (st_cache s) k = true
                         /\ destroys (Some e) current = true)
    s (fold_left (pruneCache_step filter current) ks s).
Proof.
  revert s. induction ks as [|k0 ks IH]; intros s; simpl.
  - apply calls_from_refl.
  - destruct (IH (pruneCache_step filter current s k0))
      as (calls1 & E1 & F1).
    assert (calls_from (fun k e => prunes filter (st_cache s) k = true
                                   /\ destroys (Some e) current = true)
              s (pruneCache_step filter current s k0))
      as (calls0 & E0 & F0).
    { rewrite pruneCache_step_unfold.
      destruct (prunes filter (st_cache s) k0) eqn:P0;
        [|apply calls_from_refl].
      eapply calls_from_weaken; [|apply pruneCacheEntry_calls].
      simpl. intros k e _ [-> D]. auto. }
    exists (calls0 ++ calls1). split.
    + rewrite E1, E0. symmetry. apply app_assoc.
    + apply Forall_app. split; [exact F0|].
      eapply Forall_impl; [|exact F1]. simpl.
      intros i (k & e & Hk & Hi & Hp & Hd).
      rewrite pruneCache_step_prunes in Hp.
      rewrite pruneCache_step_cache in Hk.
      apply andb_true_iff in Hp as [Hne Hp].
      apply negb_true_iff in Hne. rewrite Hne in Hk. simpl in Hk.
      exists k, e. auto.
Qed.

(** C1, as stated, fails: an entry cached under the tag of one component
    and spliced, through a shared explicit key, into the node of another
    is destroyed by the prune pass while its instance is the one on
    screen.  First on [pruneCacheEntry] alone, then along a run of the
    component. *)
Lemma destroys_active_instance :
  (let e := CacheEntry.mk (Some "A") (Some "vue-component-1-A") 10 in
   let cur := VNode.mk (Some "k") (Some "vue-component-2-B") (Some 10)
                (Some (VNodeComponentOptions.mk 2 (Some "B") None))
                true false in
   let s := mkStore [("k", Some e)] ["k"] [] in
   cache_get (st_cache s) "k" = Some e
   /\ is_active e cur
   /\ st_destroyed (pruneCacheEntry s "k" (Some cur)) = [10])
  /\ option_map
       (fun w => (option_map (fun l => VNode.componentInstance (heap w l))
                    (_vnode (this w)),
                  destroyed_log w))
       (run shared_key_trace
          (created shared_key_heap (POther false) (POther false)
             MaxUndefined))
     = Some (Some (Some 10), [10]).
Proof.
  split.
  - repeat split.
  - vm_compute. reflexivity.
Qed.

(** C1, amended: the code recognises the active instance by its tag.
    When the victim's tag is the tag of the current node, single-entry
    eviction issues no destroy call, and still empties the slot of the
    store and takes the key out of the key sequence; the destroy calls
    of a prune pass and of the capacity eviction after an admit are all
    made on entries whose tag differs from the tag of the current
    node. *)
Theorem destroy_skipped_on_current_tag :
  (forall s key cur e,
      cache_get (st_cache s) key = Some e ->
      CacheEntry.tag e = VNode.tag cur ->
      st_destroyed (pruneCacheEntry s key (Some cur)) = st_destroyed s
      /\ cache_get (st_cache (pruneCacheEntry s key (Some cur))) key = None
      /\ st_keys (pruneCacheEntry s key (Some cur)) = remove (st_keys s) key)
  /\ (forall s cur filter,
         calls_from (fun _ e => CacheEntry.tag e <> VNode.tag cur)
           s (pruneCache s (Some cur) filter))
  /\ (forall w w' lcur,
         _vnode (this w) = Some lcur ->
         cacheVNode w = Some w' ->
         exists calls,
           destroyed_log w' = destroyed_log w ++ calls
           /\ Forall (fun i => exists e,
                          cached_or_pending w e
                          /\ CacheEntry.componentInstance e = i
                          /\ CacheEntry.tag e <> VNode.tag (heap w lcur))
                calls).
Proof.
  split; [|split].
  - intros s key cur e He Ht. unfold pruneCacheEntry. simpl.
    rewrite He. simpl.
    apply strict_eq_str_spec in Ht. rewrite Ht. simpl.
    repeat split. apply cache_get_set_same.
  - intros s cur filter. unfold pruneCache.
    eapply calls_from_weaken; [|apply prune_loop_calls].
    simpl. intros k e _ [_ D]. apply destroys_current. exact D.
  - intros w w' lcur Hcur. unfold cacheVNode.
    destruct (vnodeToCache (this w)) as [l|] eqn:Hv.
    + destruct (keyToCache (this w)) as [k|]; [|discriminate].
      destruct (VNode.componentInstance (heap w l)) as [i|] eqn:Hi;
        [|discriminate].
      intros H. injection H as <-. simpl.
      destruct (over_capacity (max (this w)) (keys (this w) ++ [k])).
      * destruct (keys (this w) ++ [k]) as [|k0 ks]; simpl.
        { exists []. split; [symmetry; apply app_nil_r | constructor]. }
        unfold current_vnode. rewrite Hcur. simpl.
        destruct (cache_get (cache_set (cache (this w)) k
                    (Some (entry_of (heap w l) i))) k0) as [e|] eqn:He.
        -- unfold entry_of in He. rewrite He. simpl.
           destruct (strict_eq_str (CacheEntry.tag e)
                       (VNode.tag (heap w lcur))) eqn:Ht; simpl.
           ++ exists []. split; [symmetry; apply app_nil_r | constructor].
           ++ exists [CacheEntry.componentInstance e].
              split; [reflexivity|]. constructor; [|constructor].
              exists e. split; [|split; [reflexivity|]].
              ** destruct (String.eqb_spec k k0) as [->|Hne].
                 --- rewrite cache_get_set_same in He. injection He as <-.
                     right. exists l, i. auto.
                 --- rewrite cache_get_set_other in He by exact Hne.
                     left. exists k0. exact He.
              ** intros E. apply strict_eq_str_spec in E. congruence.
        -- unfold entry_of in He. rewrite He.
           exists []. split; [symmetry; apply app_nil_r | constructor].
      * exists []. split; [symmetry; apply app_nil_r | constructor].
    + intros H. injection H as <-.
      exists []. split; [symmetry; apply app_nil_r | constructor].
Qed.

Lemma destroy_skipped_on_current_tag_witness :
  let e := CacheEntry.mk (Some "A") (Some "vue-component-1-A") 10 in
  let cur := component_vnode None "vue-component-1-A" 1 (Some "A") None in
  let s := mkStore [("1", Some e)] ["1"] [] in
  st_destroyed (pruneCacheEntry s "1" (Some cur)) = []
  /\ cache_get (st_cache (pruneCacheEntry s "1" (Some cur))) "1" = None
  /\ st_keys (pruneCacheEntry s "1" (Some cur)) = [].
Proof.
  exact (proj1 destroy_skipped_on_current_tag
           (mkStore [("1", Some (CacheEntry.mk (Some "A")
                                   (Some "vue-component-1-A") 10))]
                    ["1"] [])
           "1"
           (component_vnode None "vue-component-1-A" 1 (Some "A") None)
           (CacheEntry.mk (Some "A") (Some "vue-component-1-A") 10)
           eq_refl eq_refl).
Defined.

(** ** Filter-driven pruning *)

Lemma prunes_true (filter : string -> bool) (c : CacheEntryMap) (k : string) :
  prunes filter c k = true <->
  exists e n,
    cache_get c k = Some e /\ CacheEntry.name e = Some n
    /\ n <> "" /\ filter n = false.
Proof.
  unfold prunes. split.
  - destruct (cache_get c k) as [e|]; [|discriminate].
    destruct (CacheEntry.name e) as [n|] eqn:En; [|discriminate].
    intros H. apply andb_true_iff in H as [Ht Hf].
    exists e, n. repeat split; auto.
    + intros ->. discriminate.
    + apply negb_true_iff. exact Hf.
  - intros (e & n & -> & -> & Hn & ->).
    destruct n; [congruence | reflexivity].
Qed.

Lemma prunes_nameless (filter : string -> bool) (c : CacheEntryMap)
  (k : string) (e : CacheEntry.t) :
  cache_get c k = Some e -> Js.truthy_str (CacheEntry.name e) = false ->
  prunes filter c k = false.
Proof.
  intros He Hn. unfold prunes. rewrite He.
  destruct (CacheEntry.name e) as [n|]; [|reflexivity].
  rewrite Hn. reflexivity.
Qed.

Lemma prune_loop_keeps (filter : string -> bool) (current : option VNode.t)
  (ks : list string) (s : Store) (k : string) :
  prunes filter (st_cache s) k = false ->
  In k (st_keys s) ->
  In k (st_keys (fold_left (pruneCache_step filter current) ks s)).
Proof.
  revert s. induction ks as [|k0 ks IH]; intros s Hp Hin; simpl;
    [exact Hin|].
  apply IH.
  - rewrite pruneCache_step_prunes, Hp. apply andb_false_r.
  - rewrite pruneCache_step_unfold.
    destruct (prunes filter (st_cache s) k0) eqn:E0; [|exact Hin].
    simpl. apply remove_In_other; [|exact Hin]. congruence.
Qed.

Lemma pruneCache_cache (s : Store) (current : option VNode.t)
  (filter : string -> bool) (k : string) :
  cache_get (st_cache (pruneCache s current filter)) k
  = if prunes filter (st_cache s) k then None else cache_get (st_cache s) k.
Proof.
  unfold pruneCache. rewrite prune_loop_cache.
  destruct (prunes filter (st_cache s) k) eqn:E;
    [|rewrite andb_false_r; reflexivity].
  apply prunes_true in E as (e & n & He & _).
  apply cache_get_live_In, own_keys_In, includes_In in He.
  rewrite He. reflexivity.
Qed.

Lemma pruneCache_keys (s : Store) (current : option VNode.t)
  (filter : string -> bool) :
  NoDup (st_keys s) ->
  st_keys (pruneCache s current filter)
  = List.filter (fun k => negb (prunes filter (st_cache s) k)) (st_keys s).
Proof.
  intros Hnd. unfold pruneCache. rewrite prune_loop_keys by exact Hnd.
  apply filter_ext. intros k.
  destruct (prunes filter (st_cache s) k) eqn:E;
    [|rewrite andb_false_r; reflexivity].
  apply prunes_true in E as (e & n & He & _).
  apply cache_get_live_In, own_keys_In, includes_In in He.
  rewrite He. reflexivity.
Qed.

Lemma store_of_with_store (w : World) (s : Store) :
  store_of (with_store w s) = s.
Proof. destruct s. reflexivity. Qed.

(** C10: whatever pattern replaces the include or the exclude pattern,
    an entry without a declared name survives the prune pass: it stays
    in the store as it was, its key stays in the key sequence, and every
    destroy call of the pass is made on an entry that has a name. *)
Theorem nameless_entries_survive_prune
  (w : World) (val : Pattern) (k : string) (e : CacheEntry.t) :
  cache_get (cache (this w)) k = Some e ->
  Js.truthy_str (CacheEntry.name e) = false ->
  forall w',
    w' = watch_include val w \/ w' = watch_exclude val w ->
    cache_get (cache (this w')) k = Some e
    /\ (In k (keys (this w)) -> In k (keys (this w')))
    /\ calls_from (fun _ e' => Js.truthy_str (CacheEntry.name e') = true)
         (store_of w) (store_of w').
Proof.
  intros He Hn w' Hw'.
  assert (forall filter,
             let s' := pruneCache (store_of w) (current_vnode w) filter in
             cache_get (st_cache s') k = Some e
             /\ (In k (keys (this w)) -> In k (st_keys s'))
             /\ calls_from
                  (fun _ e' => Js.truthy_str (CacheEntry.name e') = true)
                  (store_of w) s') as H.
  { intros filter s'. subst s'. split; [|split].
    - rewrite pruneCache_cache. simpl.
      rewrite (prunes_nameless filter _ _ _ He Hn). exact He.
    - intros Hin. unfold pruneCache. apply prune_loop_keeps; [|exact Hin].
      simpl. apply (prunes_nameless filter _ _ _ He Hn).
    - unfold pruneCache.
      eapply calls_from_weaken; [|apply prune_loop_calls].
      simpl. intros k' e' He' [Hp _].
      apply prunes_true in Hp as (e2 & n & He2 & Hname & Hne & _).
      rewrite He' in He2. injection He2 as <-. rewrite Hname.
      destruct n; [congruence | reflexivity]. }
  destruct Hw' as [-> | ->]; unfold watch_include, watch_exclude;
    rewrite store_of_with_store; apply H.
Qed.

Lemma nameless_entries_survive_prune_witness :
  cache_get (cache (this (watch_include (PArray []) nameless_world))) "5"
  = Some (CacheEntry.mk None (Some "vue-component-5") 50).
Proof.
  exact (proj1 (nameless_entries_survive_prune nameless_world (PArray []) "5"
                  (CacheEntry.mk None (Some "vue-component-5") 50)
                  eq_refl eq_refl
                  (watch_include (PArray []) nameless_world)
                  (or_introl eq_refl))).
Defined.

(** C5: when the include (or the exclude) pattern is replaced, the prune
    pass empties the slot of exactly those live entries whose declared
    name fails the new predicate (does not match the new include, or
    matches the new exclude), takes exactly their keys out of the key
    sequence, and leaves every other entry as it was.  With the live
    entries named A, B and C and the include pattern replaced by
    ["A","C"], exactly the entry named B goes. *)
Theorem filter_change_prunes_failing_names :
  (forall w val w' keep,
      (w' = watch_include val w /\ keep = matches val)
      \/ (w' = watch_exclude val w
          /\ keep = (fun name => negb (matches val name))) ->
      NoDup (keys (this w)) ->
      (forall k,
          cache_get (cache (this w')) k
          = if prunes keep (cache (this w)) k
            then None else cache_get (cache (this w)) k)
      /\ keys (this w')
         = List.filter (fun k => negb (prunes keep (cache (this w)) k))
             (keys (this w)))
  /\ option_map abc_view
       (run abc_cached
          (created abc_heap (POther false) (POther false) MaxUndefined))
     = Some (["1::a"; "2::b"; "3::c"],
             [Some (Some "A"); Some (Some "B"); Some (Some "C")])
  /\ option_map abc_view
       (run (abc_cached ++ [EvInclude (PArray ["A"; "C"])])
          (created abc_heap (POther false) (POther false) MaxUndefined))
     = Some (["1::a"; "3::c"], [Some (Some "A"); None; Some (Some "C")]).
Proof.
  split; [|split; vm_compute; reflexivity].
  intros w val w' keep Hw' Hnd.
  assert (forall k,
             cache_get (st_cache (pruneCache (store_of w) (current_vnode w)
                                    keep)) k
             = if prunes keep (cache (this w)) k
               then None else cache_get (cache (this w)) k) as Hc.
  { intros k. apply pruneCache_cache. }
  pose proof (pruneCache_keys (store_of w) (current_vnode w) keep Hnd) as Hk.
  destruct Hw' as [[-> ->] | [-> ->]];
    unfold watch_include, watch_exclude; split; assumption.
Qed.

Lemma filter_change_prunes_failing_names_witness :
  keys (this (watch_include (PArray ["A"; "C"]) abc_world))
  = List.filter
      (fun k => negb (prunes (matches (PArray ["A"; "C"]))
                        (cache (this abc_world)) k))
      (keys (this abc_world)).
Proof.
  refine (proj2 (proj1 filter_change_prunes_failing_names
                   abc_world (PArray ["A"; "C"])
                   (watch_include (PArray ["A"; "C"]) abc_world)
                   (matches (PArray ["A"; "C"])) _ _)).
  - left. split; reflexivity.
  - repeat constructor; simpl; intuition discriminate.
Defined.

(** ** Teardown *)

Section Teardown.

Lemma teardown_loop_cache (ks : list string) (s : Store) (k : string) :
  cache_get (st_cache (fold_left destroyed_step ks s)) k
  = if Js.includes ks k then None else cache_get (st_cache s) k.
Proof.
  revert s. induction ks as [|k0 ks IH]; intros s; simpl; [reflexivity|].
  rewrite IH. simpl.
  destruct (String.eqb_spec k0 k) as [->|Hne].
  - rewrite cache_get_set_same. destruct (Js.includes ks k); reflexivity.
  - rewrite cache_get_set_other by exact Hne. reflexivity.
Qed.

Lemma teardown_loop_keys (ks : list string) (s : Store) :
  NoDup (st_keys s) ->
  st_keys (fold_left destroyed_step ks s)
  = List.filter (fun k => negb (Js.includes ks k)) (st_keys s).
Proof.
  revert s. induction ks as [|k0 ks IH]; intros s Hnd; simpl.
  - symmetry. apply filter_all_true.
  - rewrite IH by (simpl; apply remove_NoDup; exact Hnd). simpl.
    rewrite (remove_filter _ _ Hnd). apply filter_twice. intros x.
    rewrite (String.eqb_sym x k0).
    destruct (String.eqb k0 x); reflexivity.
Qed.

Lemma teardown_loop_calls (ks : list string) (s : Store) :
  NoDup ks ->
  st_destroyed (fold_left destroyed_step ks s)
  = st_destroyed s ++ instances_at (st_cache s) ks.
Proof.
  revert s. induction ks as [|k0 ks IH]; intros s Hnd; simpl.
  - symmetry. apply app_nil_r.
  - inversion Hnd as [|? ? Hk0 Hnd']; subst.
    rewrite IH by exact Hnd'. simpl.
    assert (instances_at (cache_set (st_cache s) k0 None) ks
            = instances_at (st_cache s) ks) as ->.
    { clear IH Hnd Hnd'. unfold instances_at.
      induction ks as [|k ks IHks]; simpl; [reflexivity|].
      rewrite cache_get_set_other
        by (intros ->; apply Hk0; left; reflexivity).
      f_equal. apply IHks. intros H. apply Hk0. right. exact H. }
    destruct (cache_get (st_cache s) k0) as [e|]; simpl.
    + rewrite <- app_assoc. reflexivity.
    + reflexivity.
Qed.

End Teardown.

Lemma instances_at_live (c : CacheEntryMap) (ks : list string) :
  instances_at c ks
  = instances_at c (List.filter (fun k => match cache_get c k with
                                          | Some _ => true
                                          | None => false
                                          end) ks).
Proof.
  induction ks as [|k ks IH]; simpl; [reflexivity|].
  destruct (cache_get c k) as [e|] eqn:E; simpl.
  - rewrite E. simpl. f_equal. exact IH.
  - exact IH.
Qed.

Lemma instances_at_length (c : CacheEntryMap) (ks : list string) :
  (forall k, In k ks -> cache_get c k <> None) ->
  List.length (instances_at c ks) = List.length ks.
Proof.
  induction ks as [|k ks IH]; simpl; intros H; [reflexivity|].
  rewrite length_app, IH by auto.
  destruct (cache_get c k) eqn:E; [reflexivity|].
  exfalso. apply (H k); auto.
Qed.

(** ** Consistency of the store *)

Lemma filter_nothing {A : Type} (f : A -> bool) (l : list A) :
  (forall x, In x l -> f x = false) -> List.filter f l = [].
Proof.
  induction l as [|x l IH]; simpl; intros H; [reflexivity|].
  rewrite (H x) by auto. apply IH. auto.
Qed.

Lemma cache_get_dead_absent (c : CacheEntryMap) (k : string) :
  ~ In k (map fst c) -> cache_get c k = None.
Proof.
  intros H. destruct (cache_get c k) as [e|] eqn:E; [|reflexivity].
  exfalso. apply H. eapply cache_get_live_In. exact E.
Qed.

Lemma live_keys_In (c : CacheEntryMap) (k : string) :
  In k (live_keys c) <-> cache_get c k <> None.
Proof.
  unfold live_keys. rewrite filter_In, own_keys_In. split.
  - intros [_ H]. destruct (cache_get c k); congruence.
  - intros H. destruct (cache_get c k) as [e|] eqn:E; [|congruence].
    split; [|reflexivity]. eapply cache_get_live_In. exact E.
Qed.

Lemma live_keys_NoDup (c : CacheEntryMap) :
  NoDup (map fst c) -> NoDup (live_keys c).
Proof. intros H. apply NoDup_filter, own_keys_NoDup, H. Qed.

Lemma store_ok_live_keys (c : CacheEntryMap) (ks : list string) :
  store_ok c ks -> Permutation ks (live_keys c).
Proof.
  intros (Hc & Hk & Hiff). apply NoDup_Permutation.
  - exact Hk.
  - apply live_keys_NoDup, Hc.
  - intros k. rewrite Hiff, live_keys_In. tauto.
Qed.

Lemma cache_get_binding (c : CacheEntryMap) (k : string)
  (v : option CacheEntry.t) :
  NoDup (map fst c) -> In (k, v) c -> cache_get c k = v.
Proof.
  induction c as [|[k0 v0] c IH]; simpl; [tauto|].
  intros Hnd [H|H].
  - injection H as -> ->. rewrite String.eqb_refl. reflexivity.
  - inversion Hnd as [|? ? Hk0 Hnd']; subst.
    destruct (String.eqb_spec k0 k) as [->|Hne]; [|auto].
    exfalso. apply Hk0. apply (in_map fst) in H. exact H.
Qed.

Lemma live_count_live_keys (c : CacheEntryMap) :
  NoDup (map fst c) -> live_count c = List.length (live_keys c).
Proof.
  intros Hnd. unfold live_count.
  set (liveb := fun kv : string * option CacheEntry.t =>
                  match snd kv with Some _ => true | None => false end).
  rewrite <- (length_map fst (List.filter liveb c)).
  apply Permutation_length, NoDup_Permutation.
  - clear -Hnd. induction c as [|[k v] c IH]; simpl; [constructor|].
    inversion Hnd as [|? ? Hk Hnd']; subst.
    destruct (liveb (k, v)); simpl; [|auto].
    constructor; [|auto]. intros H. apply Hk.
    apply in_map_iff in H as ([k' v'] & E & H). simpl in E. subst k'.
    apply filter_In in H as [H _]. apply (in_map fst) in H. exact H.
  - apply live_keys_NoDup, Hnd.
  - intros k. rewrite live_keys_In, in_map_iff. split.
    + intros ([k' v] & E & H). simpl in E. subst k'.
      apply filter_In in H as [H L].
      rewrite (cache_get_binding _ _ _ Hnd H).
      unfold liveb in L. simpl in L. destruct v; congruence.
    + intros H. destruct (cache_get c k) as [e|] eqn:E; [|congruence].
      exists (k, Some e). split; [reflexivity|].
      apply filter_In. split; [|reflexivity].
      clear -E. induction c as [|[k0 v0] c IH]; simpl in *; [discriminate|].
      destruct (String.eqb_spec k0 k) as [->|Hne]; [left; congruence|].
      right. auto.
Qed.

Lemma store_ok_live_count (c : CacheEntryMap) (ks : list string) :
  store_ok c ks -> live_count c = List.length ks.
Proof.
  intros H. rewrite live_count_live_keys by apply H.
  symmetry. apply Permutation_length, store_ok_live_keys, H.
Qed.

(** C6: disposal of the cache destroys every held entry, the one of the
    current node included: it issues one destroy call for each live key,
    on the instance held under it, leaves no key present in the store and
    leaves the ordered key sequence empty. *)
Theorem teardown_complete (w : World) :
  store_ok (cache (this w)) (keys (this w)) ->
  let c := cache (this w) in
  let w' := destroyed w in
  (forall k, cache_get (cache (this w')) k = None)
  /\ keys (this w') = []
  /\ destroyed_log w' = destroyed_log w ++ instances_at c (live_keys c)
  /\ NoDup (live_keys c)
  /\ (forall k, In k (live_keys c) <-> cache_get c k <> None)
  /\ List.length (instances_at c (live_keys c)) = live_count c
  /\ (forall k e,
         cache_get c k = Some e ->
         In (CacheEntry.componentInstance e)
            (instances_at c (live_keys c))).
Proof.
  intros Hok c w'. pose proof Hok as (Hc & Hk & Hiff).
  unfold w', destroyed. simpl. repeat split.
  - intros k. rewrite teardown_loop_cache. simpl.
    destruct (Js.includes (own_keys (cache (this w))) k) eqn:E;
      [reflexivity|].
    apply cache_get_dead_absent. intros H.
    apply own_keys_In, includes_In in H. congruence.
  - rewrite teardown_loop_keys by exact Hk. simpl.
    apply filter_nothing. intros k Hin. apply negb_false_iff, includes_In.
    apply Hiff in Hin. apply live_keys_In in Hin.
    unfold live_keys in Hin. apply filter_In in Hin. tauto.
  - rewrite teardown_loop_calls by (apply own_keys_NoDup, Hc). simpl.
    f_equal. apply instances_at_live.
  - apply live_keys_NoDup, Hc.
  - apply live_keys_In.
  - apply live_keys_In.
  - rewrite instances_at_length by (intros k; apply live_keys_In).
    symmetry. apply live_count_live_keys, Hc.
  - intros k e He. unfold instances_at. apply in_flat_map.
    exists k. split.
    + apply live_keys_In. fold c. congruence.
    + fold c. rewrite He. left. reflexivity.
Qed.

Lemma store_ok_live_keys_of (c : CacheEntryMap) :
  NoDup (map fst c) -> store_ok c (live_keys c).
Proof.
  intros H. split; [exact H | split].
  - apply live_keys_NoDup, H.
  - apply live_keys_In.
Qed.

Lemma abc_world_ok : store_ok (cache (this abc_world)) (keys (this abc_world)).
Proof.
  assert (live_keys (cache (this abc_world)) = keys (this abc_world)) as E
    by (vm_compute; reflexivity).
  rewrite <- E. apply store_ok_live_keys_of.
  repeat constructor; simpl; intuition discriminate.
Qed.

Lemma teardown_complete_witness :
  keys (this (destroyed abc_world)) = []
  /\ destroyed_log (destroyed abc_world)
     = destroyed_log abc_world
       ++ instances_at (cache (this abc_world))
            (live_keys (cache (this abc_world))).
Proof.
  exact ((fun H => conj (proj1 (proj2 H)) (proj1 (proj2 (proj2 H))))
           (teardown_complete abc_world abc_world_ok)).
Defined.

(** The node of C is the current one, and its instance is destroyed with
    the others. *)
Example teardown_abc :
  option_map (heap abc_world) (_vnode (this abc_world))
  = Some (abc_heap 2)
  /\ destroyed_log (destroyed abc_world) = [10; 11; 12]
  /\ keys (this (destroyed abc_world)) = [].
Proof. vm_compute. repeat split. Qed.

(** ** The invariant of the component *)

Lemma shrinks_refl (s : Store) : shrinks s s.
Proof. split; [tauto | split; [apply Nat.le_refl | tauto]]. Qed.

Lemma shrinks_trans (s1 s2 s3 : Store) :
  shrinks s1 s2 -> shrinks s2 s3 -> shrinks s1 s3.
Proof.
  intros (A1 & B1 & C1) (A2 & B2 & C2). split; [|split]; auto.
  eapply Nat.le_trans; eauto.
Qed.

Lemma remove_length_le (arr : list string) (item : string) :
  List.length (remove arr item) <= List.length arr.
Proof.
  induction arr as [|y arr IH]; simpl; [auto|].
  destruct (String.eqb y item); simpl; lia.
Qed.

Lemma pruneCacheEntry_shrinks (s : Store) (key : string)
  (current : option VNode.t) :
  shrinks s (pruneCacheEntry s key current).
Proof.
  unfold pruneCacheEntry. split; [|split]; simpl.
  - intros (Hc & Hk & Hiff). split; [|split].
    + apply cache_set_NoDup, Hc.
    + apply remove_NoDup, Hk.
    + intros k. destruct (String.eqb_spec key k) as [->|Hne].
      * rewrite cache_get_set_same. split; [|congruence].
        intros H. exfalso. revert H. apply remove_NoDup_absent, Hk.
      * rewrite cache_get_set_other by exact Hne. rewrite <- Hiff. split.
        -- apply remove_In.
        -- apply remove_In_other. congruence.
  - apply remove_length_le.
  - intros k Hk. destruct (String.eqb_spec key k) as [->|Hne].
    + apply cache_get_set_same.
    + rewrite cache_get_set_other by exact Hne. exact Hk.
Qed.

Lemma fold_shrinks (turn : Store -> string -> Store) (ks : list string) :
  (forall s k, shrinks s (turn s k)) ->
  forall s, shrinks s (fold_left turn ks s).
Proof.
  intros H. induction ks as [|k ks IH]; intros s; simpl.
  - apply shrinks_refl.
  - eapply shrinks_trans; [apply H | apply IH].
Qed.

Lemma pruneCache_shrinks (s : Store) (current : option VNode.t)
  (filter : string -> bool) : shrinks s (pruneCache s current filter).
Proof.
  unfold pruneCache. apply fold_shrinks. intros s0 k.
  rewrite pruneCache_step_unfold.
  destruct (prunes filter (st_cache s0) k);
    [apply pruneCacheEntry_shrinks | apply shrinks_refl].
Qed.

Section Invariant.

Variable m : MaxProp.

Lemma Inv_with_store (w : World) (s : Store) :
  Inv m w -> shrinks (store_of w) s -> Inv m (with_store w s).
Proof.
  intros (Hm & Hok & Hp & Hn) (A & B & C). unfold Inv. simpl in *.
  split; [|split; [|split]]; auto.
  - intros l Hl. destruct (Hp l Hl) as (k & Hk & Hd).
    exists k. auto.
  - intros n Ht Hb. specialize (Hn n Ht Hb). lia.
Qed.

Lemma NoDup_snoc (l : list string) (x : string) :
  NoDup l -> ~ In x l -> NoDup (l ++ [x]).
Proof.
  intros Hl Hx. apply NoDup_app; [exact Hl | repeat constructor; auto |].
  intros y Hy [<-|[]]. tauto.
Qed.

Lemma render_Inv (slot : option (list loc)) (w : World) :
  Inv m w -> Inv m (snd (render slot w)).
Proof.
  intros HI. pose proof HI as (Hm & (Hc & Hk & Hiff) & Hp & Hn).
  unfold render.
  destruct slot as [children|]; [|exact HI].
  destruct (getFirstComponentChild (heap w) children) as [l|]; [|exact HI].
  destruct (VNode.componentOptions (heap w l)) as [co|]; [|exact HI].
  destruct (filtered_out (this w) (getComponentName (Some co)));
    [exact HI|].
  destruct (cache_get (cache (this w)) (resolveKey (heap w l) co))
    as [e|] eqn:E; unfold Inv; simpl.
  - assert (In (resolveKey (heap w l) co) (keys (this w))) as Hin.
    { apply Hiff. congruence. }
    split; [|split; [split; [|split]|split]]; auto.
    + apply NoDup_snoc; [apply remove_NoDup, Hk|].
      apply remove_NoDup_absent, Hk.
    + intros k. rewrite <- Hiff, in_app_iff. simpl. split.
      * intros [H|[<-|[]]]; [eapply remove_In; exact H | exact Hin].
      * intros H.
        destruct (string_dec k (resolveKey (heap w l) co)) as [->|Hne].
        -- right. left. reflexivity.
        -- left. apply remove_In_other; assumption.
    + intros n Ht Hb. specialize (Hn n Ht Hb).
      rewrite length_app. simpl.
      pose proof (remove_length _ _ Hin). lia.
  - split; [|split; [split; [|split]|split]]; auto.
    intros l0 _. exists (resolveKey (heap w l) co). auto.
Qed.

Lemma cacheVNode_Inv (w w' : World) :
  Inv m w -> cacheVNode w = Some w' -> Inv m w'.
Proof.
  intros HI. pose proof HI as (Hm & (Hc & Hk & Hiff) & Hp & Hn).
  unfold cacheVNode.
  destruct (vnodeToCache (this w)) as [l|] eqn:Hv;
    [|intros H; injection H as <-; exact HI].
  destruct (Hp l Hv) as (k & Hkey & Hdead). rewrite Hkey.
  destruct (VNode.componentInstance (heap w l)) as [i|]; [|discriminate].
  intros H. injection H as <-.
  set (s1 := mkStore (cache_set (cache (this w)) k
                        (Some (entry_of (heap w l) i)))
                     (keys (this w) ++ [k]) (destroyed_log w)).
  assert (~ In k (keys (this w))) as Hnotin.
  { intros H. apply Hiff in H. congruence. }
  assert (store_ok (st_cache s1) (st_keys s1)) as Hok1.
  { split; [|split]; simpl.
    - apply cache_set_NoDup, Hc.
    - apply NoDup_snoc; assumption.
    - intros k'. rewrite in_app_iff. simpl.
      destruct (String.eqb_spec k k') as [->|Hne].
      + rewrite cache_get_set_same. split; [congruence | auto].
      + rewrite cache_get_set_other by exact Hne. rewrite <- Hiff.
        intuition. }
  unfold Inv. simpl. fold (entry_of (heap w l) i). fold s1.
  destruct (over_capacity (max (this w)) (keys (this w) ++ [k])) eqn:Hov.
  - destruct (keys (this w) ++ [k]) as [|k0 ks] eqn:Hks.
    + destruct (keys (this w)); discriminate.
    + destruct (pruneCacheEntry_shrinks s1 k0 (current_vnode w))
        as (A & _ & _).
      split; [|split; [|split]]; auto.
      * intros l0 Hl0. discriminate.
      * intros n Ht Hb. specialize (Hn n Ht Hb).
        simpl. rewrite String.eqb_refl.
        assert (List.length (k0 :: ks)
                = S (List.length (keys (this w)))) as Hlen.
        { rewrite <- Hks, length_app. simpl. lia. }
        simpl in Hlen. lia.
  - split; [|split; [|split]]; auto.
    + intros l0 Hl0. discriminate.
    + intros n Ht Hb. simpl.
      unfold over_capacity in Hov. rewrite Hm, Ht, Hb in Hov.
      simpl in Hov. apply Z.ltb_ge in Hov. lia.
Qed.

Lemma step_Inv (e : Event) (w w' : World) :
  Inv m w -> step e w = Some w' -> Inv m w'.
Proof.
  intros HI. destruct e as [slot|l i| | |val|val|]; simpl.
  - pose proof (render_Inv slot w HI) as H.
    destruct (render slot w) as [r w1]. intros E. injection E as <-.
    exact H.
  - intros E. injection E as <-. exact HI.
  - unfold mounted. destruct (cacheVNode w) as [w1|] eqn:E; [|discriminate].
    intros H. injection H as <-.
    apply (cacheVNode_Inv _ _ HI) in E. exact E.
  - apply cacheVNode_Inv. exact HI.
  - intros E. injection E as <-.
    destruct (watching (this w)); [|exact HI].
    apply (Inv_with_store (set_include val w)); [exact HI|].
    apply pruneCache_shrinks.
  - intros E. injection E as <-.
    destruct (watching (this w)); [|exact HI].
    apply (Inv_with_store (set_exclude val w)); [exact HI|].
    apply pruneCache_shrinks.
  - intros E. injection E as <-.
    apply Inv_with_store; [exact HI|].
    apply fold_shrinks. intros s k. apply pruneCacheEntry_shrinks.
Qed.

Lemma run_Inv (evs : list Event) (w w' : World) :
  Inv m w -> run evs w = Some w' -> Inv m w'.
Proof.
  revert w. induction evs as [|e evs IH]; simpl; intros w HI.
  - intros E. injection E as <-. exact HI.
  - destruct (step e w) as [w1|] eqn:E; [|discriminate].
    apply IH. eapply step_Inv; eauto.
Qed.

Lemma created_Inv (h : Heap) (inc exc : Pattern) :
  Inv m (created h inc exc m).
Proof.
  unfold Inv, created, store_ok, pending_ok. simpl.
  split; [reflexivity|]. split; [|split]; [| discriminate | lia].
  split; [constructor|]. split; [constructor|].
  intros k. tauto.
Qed.

End Invariant.

(** Every world the component reaches from its creation is consistent. *)
Lemma run_store_ok (h : Heap) (inc exc : Pattern) (m : MaxProp)
  (evs : list Event) (w : World) :
  run evs (created h inc exc m) = Some w ->
  store_ok (cache (this w)) (keys (this w)).
Proof.
  intros H. eapply run_Inv in H; [apply H | apply created_Inv].
Qed.

(** ** Capacity *)

(** C3: under a positive [max], along every run of the component the
    number of live entries equals the length of the key sequence and
    never exceeds the bound; an admit compares the count after the
    insertion with the bound, and when it is exceeded evicts the key at
    the front of the sequence alone, which brings the count back to the
    bound exactly. *)
Theorem capacity_never_exceeded
  (h : Heap) (inc exc : Pattern) (m : MaxProp) (n : Z)
  (evs : list Event) (w : World) :
  max_truthy m = true ->
  parseInt m = Some n ->
  (0 < n)%Z ->
  run evs (created h inc exc m) = Some w ->
  (Z.of_nat (live_count (cache (this w))) <= n)%Z
  /\ live_count (cache (this w)) = List.length (keys (this w))
  /\ forall l k i,
       vnodeToCache (this w) = Some l ->
       keyToCache (this w) = Some k ->
       VNode.componentInstance (heap w l) = Some i ->
       exists w',
         cacheVNode w = Some w'
         /\ (Z.of_nat (live_count (cache (this w'))) <= n)%Z
         /\ ((n < Z.of_nat (List.length (keys (this w) ++ [k])))%Z ->
             keys (this w') = tl (keys (this w) ++ [k])
             /\ Z.of_nat (live_count (cache (this w'))) = n
             /\ cache_get (cache (this w')) (hd k (keys (this w))) = None)
         /\ ((Z.of_nat (List.length (keys (this w) ++ [k])) <= n)%Z ->
             keys (this w') = keys (this w) ++ [k]
             /\ live_count (cache (this w'))
                = S (live_count (cache (this w)))).
Proof.
  intros Hm Hn Hpos Hrun.
  assert (Inv m w) as HI.
  { eapply run_Inv; eauto. apply created_Inv. }
  pose proof HI as (Hmax & Hok & Hp & Hlen).
  specialize (Hlen n Hm Hn). rewrite Z.max_r in Hlen by lia.
  pose proof (store_ok_live_count _ _ Hok) as Hcount.
  split; [rewrite Hcount; exact Hlen|]. split; [exact Hcount|].
  intros l k i Hv Hk Hi.
  destruct (cacheVNode w) as [w'|] eqn:E;
    [|unfold cacheVNode in E; rewrite Hv, Hk, Hi in E; discriminate].
  exists w'. split; [reflexivity|].
  pose proof (cacheVNode_Inv m w w' HI E) as (_ & Hok' & _ & Hlen').
  specialize (Hlen' n Hm Hn). rewrite Z.max_r in Hlen' by lia.
  pose proof (store_ok_live_count _ _ Hok') as Hcount'.
  split; [rewrite Hcount'; exact Hlen'|].
  unfold cacheVNode in E. rewrite Hv, Hk, Hi in E. injection E as <-.
  simpl in *. unfold over_capacity in *. rewrite Hmax, Hm, Hn in *.
  simpl in *. split.
  - intros Hov. pose proof Hov as Hov'. apply Z.ltb_lt in Hov'.
    rewrite Hov' in *.
    rewrite length_app in Hov. simpl in Hov.
    destruct (keys (this w)) as [|k0 rest] eqn:Hks; simpl in *; [lia|].
    rewrite String.eqb_refl in *. simpl in *.
    split; [reflexivity|]. split.
    + rewrite Hcount', length_app. simpl. lia.
    + apply cache_get_set_same.
  - intros Hle. pose proof Hle as Hle'. apply Z.ltb_ge in Hle'.
    rewrite Hle' in *. simpl in *.
    split; [reflexivity|].
    rewrite Hcount', Hcount, length_app. simpl. lia.
Qed.

(** ** Deferred admission *)

(** C7: on a miss the render pass leaves the store alone and records the
    pair of the key and the node as the pending slot; no render pass
    writes the cache object, and the watchers and the teardown never
    bring a key to life; the pending pair is admitted by [cacheVNode],
    which is what the post-mount and post-update hooks run, and which
    appends the key, runs the capacity check and clears the slot. *)
Theorem miss_defers_admission :
  (forall children w l co,
      getFirstComponentChild (heap w) children = Some l ->
      VNode.componentOptions (heap w l) = Some co ->
      filtered_out (this w) (getComponentName (Some co)) = false ->
      cache_get (cache (this w)) (resolveKey (heap w l) co) = None ->
      fst (render (Some children) w) = Some l
      /\ store_of (snd (render (Some children) w)) = store_of w
      /\ vnodeToCache (this (snd (render (Some children) w))) = Some l
      /\ keyToCache (this (snd (render (Some children) w)))
         = Some (resolveKey (heap w l) co)
      /\ VNode.componentInstance (heap (snd (render (Some children) w)) l)
         = VNode.componentInstance (heap w l))
  /\ (forall slot w, cache (this (snd (render slot w))) = cache (this w))
  /\ (forall w val k,
         cache_get (cache (this w)) k = None ->
         cache_get (cache (this (watch_include val w))) k = None
         /\ cache_get (cache (this (watch_exclude val w))) k = None
         /\ cache_get (cache (this (destroyed w))) k = None)
  /\ (forall w l k i,
         vnodeToCache (this w) = Some l ->
         keyToCache (this w) = Some k ->
         VNode.componentInstance (heap w l) = Some i ->
         exists w',
           cacheVNode w = Some w'
           /\ updated w = Some w'
           /\ option_map store_of (mounted w) = Some (store_of w')
           /\ option_map (fun w => vnodeToCache (this w)) (mounted w)
              = Some None
           /\ vnodeToCache (this w') = None
           /\ (over_capacity (max (this w)) (keys (this w) ++ [k]) = false ->
               cache_get (cache (this w')) k = Some (entry_of (heap w l) i)
               /\ keys (this w') = keys (this w) ++ [k])
           /\ (over_capacity (max (this w)) (keys (this w) ++ [k]) = true ->
               keys (this w') = tl (keys (this w) ++ [k])
               /\ cache_get (cache (this w'))
                    (hd k (keys (this w) ++ [k])) = None))
  /\ (forall w, vnodeToCache (this w) = None -> cacheVNode w = Some w).
Proof.
  split; [|split; [|split; [|split]]].
  - intros children w l co Hc Hco Hf Hmiss.
    unfold render. rewrite Hc, Hco, Hf, Hmiss. simpl.
    repeat split. unfold heap_set. rewrite Nat.eqb_refl. reflexivity.
  - intros slot w. apply render_cache.
  - intros w val k Hk.
    split; [|split]; unfold watch_include, watch_exclude, destroyed; simpl.
    + apply pruneCache_shrinks. exact Hk.
    + apply pruneCache_shrinks. exact Hk.
    + apply (fold_shrinks destroyed_step); [|exact Hk].
      intros s k0. apply pruneCacheEntry_shrinks.
  - intros w l k i Hv Hk Hi.
    unfold updated, mounted, cacheVNode. rewrite Hv, Hk, Hi.
    eexists. split; [reflexivity|]. split; [reflexivity|].
    split; [reflexivity|]. split; [reflexivity|]. split; [reflexivity|].
    simpl. split; intros ->; simpl.
    + split; [apply cache_get_set_same | reflexivity].
    + destruct (keys (this w) ++ [k]) as [|k0 ks] eqn:E.
      * destruct (keys (this w)); discriminate.
      * simpl. rewrite String.eqb_refl. split; [reflexivity|].
        apply cache_get_set_same.
  - intros w Hv. unfold cacheVNode. rewrite Hv. reflexivity.
Qed.

Lemma miss_defers_admission_witness :
  fst (render (Some [0]) abc_start) = Some 0
  /\ store_of (snd (render (Some [0]) abc_start)) = store_of abc_start
  /\ vnodeToCache (this (snd (render (Some [0]) abc_start))) = Some 0.
Proof.
  refine ((fun H => conj (proj1 H)
                      (conj (proj1 (proj2 H)) (proj1 (proj2 (proj2 H)))))
            (proj1 miss_defers_admission [0] abc_start 0
               (VNodeComponentOptions.mk 1 (Some "A") (Some "a")) _ _ _ _));
    reflexivity.
Defined.

(** ** Least recently used first *)

Lemma run_cons (e : Event) (evs : list Event) (w : World) :
  run (e :: evs) w
  = match step e w with
    | Some w' => run evs w'
    | None => None
    end.
Proof. reflexivity. Qed.

(** C2: with [max = 3], after admit(A), admit(B), admit(C) and a lookup
    of A, which is a hit and makes A the most recently used key, B is at
    the front of the key sequence; admitting D then evicts B and nothing
    else, and A, C and D stay live. *)
Theorem lru_evicts_least_recently_used (kA kB kC kD : string) :
  NoDup [kA; kB; kC; kD] ->
  option_map (lru_view [kA; kB; kC; kD])
    (run lru_prefix (lru_start kA kB kC kD))
  = Some ([kB; kC; kA], [Some 10; Some 11; Some 12; None], [])
  /\ option_map (lru_view [kA; kB; kC; kD])
       (run (lru_prefix ++ lru_admit_D) (lru_start kA kB kC kD))
     = Some ([kC; kA; kD], [Some 10; None; Some 12; Some 14], [11]).
Proof.
  intros Hnd.
  assert (kA <> kB /\ kA <> kC /\ kA <> kD
          /\ kB <> kC /\ kB <> kD /\ kC <> kD)
    as (AB & AC & AD & BC & BD & CD).
  { inversion Hnd as [|? ? H1 Hnd1]; subst.
    inversion Hnd1 as [|? ? H2 Hnd2]; subst.
    inversion Hnd2 as [|? ? H3 Hnd3]; subst.
    simpl in *. intuition congruence. }
  assert (forall a b : string,
             a <> b -> String.eqb a b = false /\ String.eqb b a = false)
    as neq.
  { intros a b H. split; apply String.eqb_neq; congruence. }
  destruct (neq _ _ AB) as [E1 E2], (neq _ _ AC) as [E3 E4],
    (neq _ _ AD) as [E5 E6], (neq _ _ BC) as [E7 E8],
    (neq _ _ BD) as [E9 E10], (neq _ _ CD) as [E11 E12].
  unfold lru_start, lru_prefix, lru_admit_D, lru_view.
  split; cbn [app];
    repeat (rewrite run_cons; cbn -[String.eqb run];
            rewrite ?String.eqb_refl, ?E1, ?E2, ?E3, ?E4, ?E5, ?E6,
              ?E7, ?E8, ?E9, ?E10, ?E11, ?E12;
            cbn -[String.eqb run]);
    repeat (cbn -[String.eqb];
            rewrite ?String.eqb_refl, ?E1, ?E2, ?E3, ?E4, ?E5, ?E6,
              ?E7, ?E8, ?E9, ?E10, ?E11, ?E12);
    reflexivity.
Qed.

Lemma lru_evicts_least_recently_used_witness :
  option_map (lru_view ["A"; "B"; "C"; "D"])
    (run (lru_prefix ++ lru_admit_D) (lru_start "A" "B" "C" "D"))
  = Some (["C"; "A"; "D"], [Some 10; None; Some 12; Some 14], [11]).
Proof.
  refine (proj2 (lru_evicts_least_recently_used "A" "B" "C" "D" _)).
  repeat constructor; simpl; intuition discriminate.
Defined.

Lemma capacity_never_exceeded_witness :
  (Z.of_nat (live_count (cache (this lru_final))) <= 3)%Z
  /\ live_count (cache (this lru_final)) = List.length (keys (this lru_final)).
Proof.
  refine ((fun H => conj (proj1 H) (proj1 (proj2 H)))
            (capacity_never_exceeded (lru_heap "A" "B" "C" "D")
               (POther false) (POther false) (MaxNumber 3) 3
               (lru_prefix ++ lru_admit_D) lru_final
               eq_refl eq_refl eq_refl _)).
  vm_compute. reflexivity.
Defined.

(** * Further properties of the component *)

(** ** The hit path of [render] *)

Lemma remove_perm (arr : list string) (item : string) :
  In item arr -> Permutation arr (item :: remove arr item).
Proof.
  induction arr as [|y arr IH]; simpl; [tauto|].
  destruct (String.eqb_spec y item) as [->|Hne]; [reflexivity|].
  intros [H|H]; [congruence|].
  rewrite (IH H) at 1. apply perm_swap.
Qed.

(** X1: on a hit the render pass hands the candidate back with the cached
    instance spliced in and the caching flag set, moves the key to the
    end of the key sequence, and touches nothing else: no other node,
    not the cache object, not the pending slot, and it destroys nothing.
    On a consistent store the key sequence is only reordered. *)
Theorem render_hit_refreshes
  (children : list loc) (w : World) (l : loc)
  (co : VNodeComponentOptions.t) (e : CacheEntry.t) :
  getFirstComponentChild (heap w) children = Some l ->
  VNode.componentOptions (heap w l) = Some co ->
  filtered_out (this w) (getComponentName (Some co)) = false ->
  cache_get (cache (this w)) (resolveKey (heap w l) co) = Some e ->
  let key := resolveKey (heap w l) co in
  let w' := snd (render (Some children) w) in
  fst (render (Some children) w) = Some l
  /\ heap w' l
     = VNode.set_keepAlive true
         (VNode.set_componentInstance
            (Some (CacheEntry.componentInstance e)) (heap w l))
  /\ (forall l', l' <> l -> heap w' l' = heap w l')
  /\ cache (this w') = cache (this w)
  /\ destroyed_log w' = destroyed_log w
  /\ vnodeToCache (this w') = vnodeToCache (this w)
  /\ keyToCache (this w') = keyToCache (this w)
  /\ keys (this w') = remove (keys (this w)) key ++ [key]
  /\ (store_ok (cache (this w)) (keys (this w)) ->
      Permutation (keys (this w)) (keys (this w'))
      /\ last (keys (this w')) key = key).
Proof.
  intros Hc Hco Hf Hhit key w'. subst key w'.
  unfold render. rewrite Hc, Hco, Hf, Hhit. simpl.
  split; [reflexivity|]. split.
  { unfold heap_set. rewrite Nat.eqb_refl. reflexivity. }
  split.
  { intros l' Hne. unfold heap_set.
    destruct (Nat.eqb_spec l' l); [congruence | reflexivity]. }
  repeat (split; [reflexivity|]).
  intros (_ & _ & Hiff). split.
  - rewrite <- Permutation_cons_append. apply remove_perm.
    apply Hiff. congruence.
  - apply last_last.
Qed.

Lemma render_hit_refreshes_witness :
  fst (render (Some [0]) abc_world) = Some 0
  /\ heap (snd (render (Some [0]) abc_world)) 0
     = VNode.set_keepAlive true
         (VNode.set_componentInstance (Some 10) (heap abc_world 0)).
Proof.
  exact ((fun H => conj (proj1 H) (proj1 (proj2 H)))
           (render_hit_refreshes [0] abc_world 0
              (VNodeComponentOptions.mk 1 (Some "A") (Some "a"))
              (entry_of (abc_heap 0) 10)
              eq_refl eq_refl eq_refl eq_refl)).
Defined.

Lemma cacheVNode_keeps_admitted
  (w : World) (l : loc) (k : string) (i : Component) :
  vnodeToCache (this w) = Some l ->
  keyToCache (this w) = Some k ->
  VNode.componentInstance (heap w l) = Some i ->
  ~ In k (keys (this w)) ->
  keys (this w) <> []
  \/ over_capacity (max (this w)) (keys (this w) ++ [k]) = false ->
  exists w',
    cacheVNode w = Some w'
    /\ cache_get (cache (this w')) k = Some (entry_of (heap w l) i)
    /\ last (keys (this w')) k = k.
Proof.
  intros Hv Hk Hi Hnotin Hroom.
  unfold cacheVNode. rewrite Hv, Hk, Hi.
  eexists. split; [reflexivity|]. simpl.
  destruct (over_capacity (max (this w)) (keys (this w) ++ [k])) eqn:Hov.
  - destruct Hroom as [Hne | Hno]; [|discriminate].
    destruct (keys (this w)) as [|k0 rest] eqn:Hks; [congruence|].
    simpl. rewrite String.eqb_refl. split; [|apply last_last].
    rewrite cache_get_set_other.
    + apply cache_get_set_same.
    + intros ->. apply Hnotin. left. reflexivity.
  - simpl. split; [apply cache_get_set_same | apply last_last].
Qed.

(** X2: an admitted pair is found again: once [cacheVNode] has admitted
    the pending node under a key that was not in the key sequence, and
    the capacity check did not evict that very key, a render pass whose
    candidate resolves to the key is a hit, receives the instance of the
    admitted node, and leaves the key most recently used. *)
Theorem admit_then_render_hits
  (w : World) (l : loc) (k : string) (i : Component) :
  vnodeToCache (this w) = Some l ->
  keyToCache (this w) = Some k ->
  VNode.componentInstance (heap w l) = Some i ->
  ~ In k (keys (this w)) ->
  keys (this w) <> []
  \/ over_capacity (max (this w)) (keys (this w) ++ [k]) = false ->
  exists w',
    cacheVNode w = Some w'
    /\ cache_get (cache (this w')) k = Some (entry_of (heap w l) i)
    /\ forall children l2 co2,
         getFirstComponentChild (heap w') children = Some l2 ->
         VNode.componentOptions (heap w' l2) = Some co2 ->
         filtered_out (this w') (getComponentName (Some co2)) = false ->
         resolveKey (heap w' l2) co2 = k ->
         fst (render (Some children) w') = Some l2
         /\ VNode.componentInstance
              (heap (snd (render (Some children) w')) l2) = Some i
         /\ last (keys (this (snd (render (Some children) w')))) k = k.
Proof.
  intros Hv Hk Hi Hnotin Hroom.
  destruct (cacheVNode_keeps_admitted w l k i Hv Hk Hi Hnotin Hroom)
    as (w' & E & Hlive & _).
  exists w'. split; [exact E|]. split; [exact Hlive|].
  intros children l2 co2 Hc Hco Hf Hkey.
  unfold render. rewrite Hc, Hco, Hf, Hkey, Hlive. simpl.
  split; [reflexivity|]. split.
  - unfold heap_set. rewrite Nat.eqb_refl. reflexivity.
  - apply last_last.
Qed.

Lemma admit_then_render_hits_witness :
  exists w',
    cacheVNode abc_pending = Some w'
    /\ cache_get (cache (this w')) "1::a"
       = Some (entry_of (heap abc_pending 0) 10).
Proof.
  destruct (admit_then_render_hits abc_pending 0 "1::a" 10
              eq_refl eq_refl eq_refl (fun H : False => H)
              (or_intror eq_refl)) as (w' & E & H & _).
  exists w'. split; [exact E | exact H].
Defined.

(** ** Consistency along every run *)

(** X3: whatever [max] is, in every world the component reaches from its
    creation the key sequence has no duplicates and holds exactly the
    live keys, the number of live entries is its length, the key of a
    pending node is not live (an admit never overwrites a live entry),
    and the [max] prop is the one the component was created with. *)
Theorem reachable_store_consistent
  (h : Heap) (inc exc : Pattern) (m : MaxProp)
  (evs : list Event) (w : World) :
  run evs (created h inc exc m) = Some w ->
  NoDup (keys (this w))
  /\ (forall k, In k (keys (this w)) <-> cache_get (cache (this w)) k <> None)
  /\ live_count (cache (this w)) = List.length (keys (this w))
  /\ (forall l, vnodeToCache (this w) = Some l ->
                exists k, keyToCache (this w) = Some k
                          /\ cache_get (cache (this w)) k = None)
  /\ max (this w) = m.
Proof.
  intros Hrun.
  assert (Inv m w) as (Hm & Hok & Hp & _).
  { eapply run_Inv; [apply created_Inv | exact Hrun]. }
  split; [apply Hok|]. split; [apply Hok|].
  split; [apply store_ok_live_count, Hok|].
  split; [exact Hp | exact Hm].
Qed.

Lemma reachable_store_consistent_witness :
  NoDup (keys (this lru_final))
  /\ live_count (cache (this lru_final)) = List.length (keys (this lru_final)).
Proof.
  refine ((fun H => conj (proj1 H) (proj1 (proj2 (proj2 H))))
            (reachable_store_consistent (lru_heap "A" "B" "C" "D")
               (POther false) (POther false) (MaxNumber 3)
               (lru_prefix ++ lru_admit_D) lru_final _)).
  vm_compute. reflexivity.
Defined.

(** ** The capacity check at its edges *)

(** X4: a [max] that is falsy ([undefined], the number 0, the empty
    string) or that [parseInt] reads as [NaN] sets no bound: the admit
    appends the key, stores the entry, evicts nothing and destroys
    nothing, however long the key sequence already is. *)
Theorem unbounded_admit_never_evicts
  (w : World) (l : loc) (k : string) (i : Component) :
  vnodeToCache (this w) = Some l ->
  keyToCache (this w) = Some k ->
  VNode.componentInstance (heap w l) = Some i ->
  max_truthy (max (this w)) = false \/ parseInt (max (this w)) = None ->
  exists w',
    cacheVNode w = Some w'
    /\ keys (this w') = keys (this w) ++ [k]
    /\ cache (this w')
       = cache_set (cache (this w)) k (Some (entry_of (heap w l) i))
    /\ destroyed_log w' = destroyed_log w
    /\ vnodeToCache (this w') = None.
Proof.
  intros Hv Hk Hi Hmax.
  assert (over_capacity (max (this w)) (keys (this w) ++ [k]) = false)
    as Hov.
  { unfold over_capacity. destruct Hmax as [-> | ->]; [reflexivity|].
    apply andb_false_r. }
  unfold cacheVNode. rewrite Hv, Hk, Hi. simpl. rewrite Hov.
  eexists. split; [reflexivity|]. repeat split.
Qed.

Lemma unbounded_admit_never_evicts_witness :
  exists w',
    cacheVNode abc_pending = Some w'
    /\ keys (this w') = keys (this abc_pending) ++ ["1::a"].
Proof.
  destruct (unbounded_admit_never_evicts abc_pending 0 "1::a" 10
              eq_refl eq_refl eq_refl (or_introl eq_refl))
    as (w' & E & H & _).
  exists w'. split; [exact E | exact H].
Defined.

(** X5: a truthy [max] that [parseInt] reads as zero or less (the string
    "0", a negative number) makes the component cache nothing: in every
    world it reaches the key sequence is empty and no key is live, each
    admit having evicted the entry it had just stored. *)
Theorem nonpositive_max_caches_nothing
  (h : Heap) (inc exc : Pattern) (m : MaxProp) (n : Z)
  (evs : list Event) (w : World) :
  max_truthy m = true ->
  parseInt m = Some n ->
  (n <= 0)%Z ->
  run evs (created h inc exc m) = Some w ->
  keys (this w) = []
  /\ (forall k, cache_get (cache (this w)) k = None)
  /\ live_count (cache (this w)) = 0.
Proof.
  intros Hm Hn Hle Hrun.
  assert (Inv m w) as (_ & Hok & _ & Hlen).
  { eapply run_Inv; [apply created_Inv | exact Hrun]. }
  specialize (Hlen n Hm Hn). rewrite Z.max_l in Hlen by exact Hle.
  assert (keys (this w) = []) as Hnil.
  { destruct (keys (this w)); [reflexivity | simpl in Hlen; lia]. }
  split; [exact Hnil|]. split.
  - intros k. destruct Hok as (_ & _ & Hiff).
    destruct (cache_get (cache (this w)) k) eqn:E; [|reflexivity].
    exfalso. assert (In k (keys (this w))) as Hin
      by (apply Hiff; congruence).
    rewrite Hnil in Hin. exact Hin.
  - rewrite (store_ok_live_count _ _ Hok), Hnil. reflexivity.
Qed.

Lemma nonpositive_max_caches_nothing_witness :
  keys (this zero_final) = []
  /\ (forall k, cache_get (cache (this zero_final)) k = None).
Proof.
  refine ((fun H => conj (proj1 H) (proj1 (proj2 H)))
            (nonpositive_max_caches_nothing abc_heap
               (POther false) (POther false) (MaxString "0") 0
               abc_cached zero_final eq_refl eq_refl _ _)).
  - discriminate.
  - vm_compute. reflexivity.
Defined.

(** X6: an admit evicts one key at most.  The key sequence grows by one
    when the check finds room and keeps its length when it does not; so
    a sequence already longer than the bound, as after the parent has
    lowered [max], is not brought back under it. *)
Theorem admit_evicts_at_most_one
  (w : World) (l : loc) (k : string) (i : Component) :
  vnodeToCache (this w) = Some l ->
  keyToCache (this w) = Some k ->
  VNode.componentInstance (heap w l) = Some i ->
  exists w',
    cacheVNode w = Some w'
    /\ List.length (keys (this w'))
       = (if over_capacity (max (this w)) (keys (this w) ++ [k])
          then List.length (keys (this w))
          else S (List.length (keys (this w))))
    /\ forall n,
         max_truthy (max (this w)) = true ->
         parseInt (max (this w)) = Some n ->
         (n < Z.of_nat (List.length (keys (this w))))%Z ->
         (n < Z.of_nat (List.length (keys (this w'))))%Z.
Proof.
  intros Hv Hk Hi.
  unfold cacheVNode. rewrite Hv, Hk, Hi. simpl.
  destruct (over_capacity (max (this w)) (keys (this w) ++ [k])) eqn:Hov.
  - destruct (keys (this w)) as [|k0 rest] eqn:Hks; simpl;
      rewrite String.eqb_refl; eexists; (split; [reflexivity|]); simpl.
    + split; [reflexivity | intros; lia].
    + rewrite length_app. simpl. split; [lia | intros; lia].
  - eexists. split; [reflexivity|]. simpl.
    rewrite length_app. simpl. split; [lia | intros; lia].
Qed.

Lemma admit_evicts_at_most_one_witness :
  exists w',
    cacheVNode abc_pending = Some w'
    /\ List.length (keys (this w')) = 1.
Proof.
  destruct (admit_evicts_at_most_one abc_pending 0 "1::a" 10
              eq_refl eq_refl eq_refl) as (w' & E & H & _).
  exists w'. split; [exact E | exact H].
Defined.

(** ** Eviction composed with itself *)

Lemma cache_set_twice (c : CacheEntryMap) (k : string)
  (v v' : option CacheEntry.t) :
  cache_set (cache_set c k v) k v' = cache_set c k v'.
Proof.
  induction c as [|[k0 v0] c IH]; simpl.
  - rewrite String.eqb_refl. reflexivity.
  - destruct (String.eqb_spec k0 k) as [->|Hne]; simpl.
    + rewrite String.eqb_refl. reflexivity.
    + destruct (String.eqb_spec k0 k); [congruence|]. rewrite IH.
      reflexivity.
Qed.

(** X7: evicting a key that holds no entry destroys nothing and leaves
    every other slot as it was; and evicting the same key twice, on a
    key sequence without duplicates, is evicting it once, whatever the
    current node is the second time: the instance is not destroyed
    again. *)
Theorem pruneCacheEntry_idempotent
  (s : Store) (key : string) (current current' : option VNode.t) :
  NoDup (st_keys s) ->
  pruneCacheEntry (pruneCacheEntry s key current) key current'
  = pruneCacheEntry s key current
  /\ (cache_get (st_cache s) key = None ->
      st_destroyed (pruneCacheEntry s key current) = st_destroyed s
      /\ forall k, cache_get (st_cache (pruneCacheEntry s key current)) k
                   = cache_get (st_cache s) k).
Proof.
  intros Hnd. split.
  - unfold pruneCacheEntry. simpl.
    rewrite cache_get_set_same, cache_set_twice. simpl.
    rewrite (remove_absent (remove (st_keys s) key) key)
      by (apply remove_NoDup_absent, Hnd).
    reflexivity.
  - intros Hdead. unfold pruneCacheEntry. simpl. rewrite Hdead. simpl.
    split; [reflexivity|]. intros k.
    destruct (String.eqb_spec key k) as [->|Hne].
    + rewrite cache_get_set_same. symmetry. exact Hdead.
    + apply cache_get_set_other. exact Hne.
Qed.

Lemma pruneCacheEntry_idempotent_witness :
  pruneCacheEntry (pruneCacheEntry (store_of abc_world) "2::b" None)
    "2::b" None
  = pruneCacheEntry (store_of abc_world) "2::b" None.
Proof.
  refine (proj1 (pruneCacheEntry_idempotent (store_of abc_world) "2::b"
                   None None _)).
  repeat constructor; simpl; intuition discriminate.
Defined.

Lemma prune_loop_nothing (filter : string -> bool)
  (current : option VNode.t) (ks : list string) (s : Store) :
  (forall k, prunes filter (st_cache s) k = false) ->
  fold_left (pruneCache_step filter current) ks s = s.
Proof.
  intros H. induction ks as [|k ks IH]; simpl; [reflexivity|].
  rewrite pruneCache_step_unfold, H. exact IH.
Qed.

(** X8: a prune pass leaves no entry that its filter rejects, so a
    second pass with the same filter changes nothing and destroys
    nothing, whatever the current node has become in between. *)
Theorem pruneCache_idempotent
  (s : Store) (current current' : option VNode.t)
  (filter : string -> bool) :
  (forall k, prunes filter (st_cache (pruneCache s current filter)) k = false)
  /\ pruneCache (pruneCache s current filter) current' filter
     = pruneCache s current filter.
Proof.
  assert (forall k,
             prunes filter (st_cache (pruneCache s current filter)) k = false)
    as H.
  { intros k. unfold prunes at 1. rewrite pruneCache_cache.
    destruct (prunes filter (st_cache s) k) eqn:E; [reflexivity | exact E]. }
  split; [exact H|].
  unfold pruneCache at 1. apply prune_loop_nothing. exact H.
Qed.

(** ** Filter changes at their edges *)

(** X9: when the exclude prop is replaced by a value that is no pattern
    ([undefined] when the prop is removed, [null], a number ...), the
    prune pass leaves the store as it was; when the include prop is
    replaced by such a value, the pass evicts every entry that has a
    name and keeps the nameless ones. *)
Theorem non_pattern_filter_change (w : World) (b : bool) :
  store_of (watch_exclude (POther b) w) = store_of w
  /\ forall k,
       cache_get (cache (this (watch_include (POther b) w))) k
       = match cache_get (cache (this w)) k with
         | Some e => if Js.truthy_str (CacheEntry.name e) then None else Some e
         | None => None
         end.
Proof.
  split.
  - unfold watch_exclude. rewrite store_of_with_store.
    unfold pruneCache. apply prune_loop_nothing.
    intros k. unfold prunes. simpl.
    destruct (cache_get (cache (this w)) k) as [e|]; [|reflexivity].
    destruct (CacheEntry.name e); [apply andb_false_r | reflexivity].
  - intros k. unfold watch_include. simpl. rewrite pruneCache_cache.
    unfold prunes. simpl.
    destruct (cache_get (cache (this w)) k) as [e|]; [|reflexivity].
    destruct (CacheEntry.name e) as [n|]; [|reflexivity].
    simpl. rewrite andb_true_r. reflexivity.
Qed.

(** ** Patterns and names *)

Lemma split_pieces_without_separator (sep : ascii) (s p : string) :
  In p (Js.split sep s) ->
  forall a b, p <> (a ++ String sep b)%string.
Proof.
  revert p. induction s as [|c s IH]; simpl; intros p Hin a b E.
  - destruct Hin as [<-|[]]. destruct a; discriminate.
  - destruct (Ascii.eqb_spec c sep) as [->|Hc].
    + destruct Hin as [<-|Hin]; [destruct a; discriminate|].
      exact (IH p Hin a b E).
    + destruct (Js.split sep s) as [|p0 ps] eqn:Es.
      * destruct Hin as [<-|[]].
        destruct a as [|c' a]; simpl in E; injection E as E1 E2;
          [congruence | destruct a; discriminate].
      * destruct Hin as [<-|Hin].
        -- destruct a as [|c' a]; simpl in E; injection E as E1 E2;
             [congruence|].
           apply (IH p0 (or_introl eq_refl) a b). exact E2.
        -- apply (IH p (or_intror Hin) a b). exact E.
Qed.

(** X10: a name that contains a comma matches no delimited-string
    pattern, since the pattern is cut at every comma; only an array or a
    regular expression can name it. *)
Theorem comma_name_matches_no_string_pattern
  (s name : string) (a b : string) :
  name = (a ++ String "," b)%string ->
  matches (PString s) name = false.
Proof.
  intros E. simpl.
  destruct (Js.includes (Js.split "," s) name) eqn:H; [|reflexivity].
  apply includes_In in H.
  exfalso. exact (split_pieces_without_separator _ _ _ H a b E).
Qed.

Lemma comma_name_matches_no_string_pattern_witness :
  matches (PString "a,b") "a,b" = false
  /\ matches (PArray ["a,b"]) "a,b" = true.
Proof.
  split; [|reflexivity].
  exact (comma_name_matches_no_string_pattern "a,b" "a,b" "a" "b" eq_refl).
Defined.

(** ** Derived keys *)

Lemma string_of_N_digits (n : N) :
  exists d, Js.string_of_N n = NilEmpty.string_of_uint d.
Proof.
  unfold Js.string_of_N, NilZero.string_of_uint.
  destruct (N.to_uint n) eqn:E;
    [exists (Decimal.D0 Decimal.Nil); reflexivity | | | | | | | | | |];
    eexists; reflexivity.
Qed.

Lemma string_of_N_inj (n1 n2 : N) :
  Js.string_of_N n1 = Js.string_of_N n2 -> n1 = n2.
Proof.
  assert (forall n,
             option_map N.of_uint
               (NilZero.uint_of_string (Js.string_of_N n)) = Some n) as H.
  { intros n. unfold Js.string_of_N.
    destruct (N.to_uint n) eqn:E;
      [simpl; rewrite <- (DecimalN.Unsigned.of_to n), E; reflexivity|..];
      rewrite NilZero.usu by discriminate; cbn [option_map];
      rewrite <- E; f_equal; apply DecimalN.Unsigned.of_to. }
  intros E. pose proof (H n1) as H1. rewrite E, H in H1. congruence.
Qed.

(** Digits carry no colon: two numerals followed by a colon and a rest
    agree only when the numerals and the rests agree, and a numeral
    followed by a colon is no numeral. *)
Lemma digits_colon_split (d1 d2 : Decimal.uint) (x y : string) :
  (NilEmpty.string_of_uint d1 ++ String ":" x
   = NilEmpty.string_of_uint d2 ++ String ":" y)%string ->
  NilEmpty.string_of_uint d1 = NilEmpty.string_of_uint d2 /\ x = y.
Proof.
  revert d2. induction d1; destruct d2; simpl; intros E;
    try discriminate;
    try (injection E as E; destruct (IHd1 _ E) as [-> ->]; auto).
  injection E as ->. auto.
Qed.

Lemma digits_no_colon (d1 d2 : Decimal.uint) (x : string) :
  (NilEmpty.string_of_uint d1 ++ String ":" x)%string
  <> NilEmpty.string_of_uint d2.
Proof.
  revert d2. induction d1; destruct d2; simpl; intros E;
    try discriminate; injection E as E; exact (IHd1 _ E).
Qed.

(** X11: derived keys do not collide: two candidates without explicit
    keys resolve to the same cache key only if they have the same
    constructor id and the same present tag. *)
Theorem derived_keys_do_not_collide
  (v1 v2 : VNode.t) (co1 co2 : VNodeComponentOptions.t) :
  VNode.key v1 = None ->
  VNode.key v2 = None ->
  resolveKey v1 co1 = resolveKey v2 co2 ->
  VNodeComponentOptions.Ctor_cid co1 = VNodeComponentOptions.Ctor_cid co2
  /\ present_tag co1 = present_tag co2.
Proof.
  intros Hk1 Hk2.
  assert (forall v co,
             VNode.key v = None ->
             resolveKey v co
             = (Js.string_of_N (VNodeComponentOptions.Ctor_cid co)
                ++ match present_tag co with
                   | Some tag => String ":" (String ":" tag)
                   | None => ""
                   end)%string) as shape.
  { intros v co Hk. unfold resolveKey, present_tag. rewrite Hk.
    destruct (Js.truthy_str (VNodeComponentOptions.tag co)) eqn:E;
      [|reflexivity].
    destruct (VNodeComponentOptions.tag co); [reflexivity | discriminate]. }
  assert (forall s, (s ++ "")%string = s) as app_empty.
  { induction s as [|c s IH]; simpl; [|rewrite IH]; reflexivity. }
  rewrite (shape _ _ Hk1), (shape _ _ Hk2).
  destruct (string_of_N_digits (VNodeComponentOptions.Ctor_cid co1))
    as (d1 & E1).
  destruct (string_of_N_digits (VNodeComponentOptions.Ctor_cid co2))
    as (d2 & E2).
  destruct (present_tag co1) as [t1|], (present_tag co2) as [t2|];
    intros E.
  - rewrite E1, E2 in E. apply digits_colon_split in E as [Ed Et].
    injection Et as ->. split; [|reflexivity].
    apply string_of_N_inj. congruence.
  - exfalso. rewrite E1, E2, app_empty in E.
    exact (digits_no_colon _ _ _ E).
  - exfalso. rewrite E1, E2, app_empty in E. symmetry in E.
    exact (digits_no_colon _ _ _ E).
  - rewrite !app_empty in E. split; [|reflexivity].
    apply string_of_N_inj. exact E.
Qed.

Lemma derived_keys_do_not_collide_witness :
  VNodeComponentOptions.Ctor_cid (VNodeComponentOptions.mk 7 None (Some "foo"))
  = VNodeComponentOptions.Ctor_cid
      (VNodeComponentOptions.mk 7 (Some "Foo") (Some "foo"))
  /\ present_tag (VNodeComponentOptions.mk 7 None (Some "foo"))
     = present_tag (VNodeComponentOptions.mk 7 (Some "Foo") (Some "foo")).
Proof.
  exact ((derived_keys_do_not_collide
                  (fst two_tags_of_one_ctor) (fst two_tags_of_one_ctor)
                  (VNodeComponentOptions.mk 7 None (Some "foo"))
                  (VNodeComponentOptions.mk 7 (Some "Foo") (Some "foo"))
                  eq_refl eq_refl eq_refl)).
Defined.

(** ** Render passes without a cacheable candidate *)

Lemma getFirstComponentChild_plain (h : Heap) (children : list loc) :
  Forall (fun c => VNode.componentOptions (h c) = None
                   /\ VNode.isAsyncPlaceholder (h c) = false) children ->
  getFirstComponentChild h children = None.
Proof.
  induction 1 as [|c children [Hco Hph] _ IH]; simpl; [reflexivity|].
  rewrite Hco, Hph. exact IH.
Qed.

(** X12: a render pass with nothing to cache is a no-op.  Without a slot
    it returns nothing; with a slot that holds no component it returns
    the first node of the slot (nothing for an empty slot); with a
    candidate that carries no component options (the placeholder of an
    async component) it returns the candidate.  In each case the world
    is left as it was. *)
Theorem render_without_candidate (w : World) :
  render None w = (None, w)
  /\ (forall children,
         Forall (fun c => VNode.componentOptions (heap w c) = None
                          /\ VNode.isAsyncPlaceholder (heap w c) = false)
           children ->
         render (Some children) w = (hd_error children, w))
  /\ (forall children l,
         getFirstComponentChild (heap w) children = Some l ->
         VNode.componentOptions (heap w l) = None ->
         render (Some children) w = (Some l, w)).
Proof.
  split; [reflexivity|]. split.
  - intros children H. unfold render.
    rewrite (getFirstComponentChild_plain _ _ H). reflexivity.
  - intros children l Hc Hco. unfold render. rewrite Hc, Hco. reflexivity.
Qed.

Lemma render_without_candidate_witness :
  render (Some [3; 4]) plain_world = (Some 3, plain_world).
Proof.
  refine (proj1 (proj2 (render_without_candidate plain_world)) [3; 4] _).
  repeat constructor.
Defined.

Lemma filtered_out_anonymous (t : KeepAlive) (name : option string) :
  Js.truthy_str name = false ->
  filtered_out t name = pattern_truthy (include t).
Proof.
  intros H. unfold filtered_out. rewrite H. simpl.
  rewrite andb_true_r, andb_false_r, orb_false_r. reflexivity.
Qed.

(** X13: a candidate with neither a declared name nor a tag is never
    cached while an include pattern is set, whatever the pattern, and no
    exclude pattern keeps it out of the cache: without an include
    pattern the pass marks it as cached, and on a miss puts it in the
    pending slot. *)
Theorem anonymous_candidate_filtering
  (children : list loc) (w : World) (l : loc)
  (co : VNodeComponentOptions.t) :
  getFirstComponentChild (heap w) children = Some l ->
  VNode.componentOptions (heap w l) = Some co ->
  Js.truthy_str (getComponentName (Some co)) = false ->
  (pattern_truthy (include (this w)) = true ->
   render (Some children) w = (Some l, w))
  /\ (pattern_truthy (include (this w)) = false ->
      VNode.data_keepAlive (heap (snd (render (Some children) w)) l) = true
      /\ (cache_get (cache (this w)) (resolveKey (heap w l) co) = None ->
          vnodeToCache (this (snd (render (Some children) w))) = Some l)).
Proof.
  intros Hc Hco Hname.
  pose proof (filtered_out_anonymous (this w) _ Hname) as Hf.
  split; intros Hinc; rewrite Hinc in Hf; unfold render;
    rewrite Hc, Hco, Hf; [reflexivity|].
  split.
  - simpl. unfold heap_set. rewrite Nat.eqb_refl. reflexivity.
  - intros Hmiss. rewrite Hmiss. reflexivity.
Qed.

Lemma anonymous_candidate_filtering_witness :
  render (Some [0]) anonymous_world = (Some 0, anonymous_world).
Proof.
  exact (proj1 (anonymous_candidate_filtering [0] anonymous_world 0
                  (VNodeComponentOptions.mk 9 None None)
                  eq_refl eq_refl eq_refl) eq_refl).
Defined.

(** ** The pending slot *)

(** X14: the pending slot holds one candidate.  When a render pass
    misses while an earlier candidate is still waiting under another
    key, the new candidate takes the slot; the hook that follows admits
    the new candidate only, the earlier key stays out of the store, and
    the slot is empty afterwards, so the earlier candidate is never
    admitted. *)
Theorem second_miss_replaces_pending
  (children : list loc) (w : World) (l l1 : loc) (k1 : string)
  (co : VNodeComponentOptions.t) (i : Component) :
  vnodeToCache (this w) = Some l1 ->
  keyToCache (this w) = Some k1 ->
  cache_get (cache (this w)) k1 = None ->
  getFirstComponentChild (heap w) children = Some l ->
  VNode.componentOptions (heap w l) = Some co ->
  filtered_out (this w) (getComponentName (Some co)) = false ->
  cache_get (cache (this w)) (resolveKey (heap w l) co) = None ->
  resolveKey (heap w l) co <> k1 ->
  exists w',
    run [EvRender (Some children); EvInstantiate l i; EvUpdated] w = Some w'
    /\ cache_get (cache (this w')) k1 = None
    /\ vnodeToCache (this w') = None
    /\ (over_capacity (max (this w))
          (keys (this w) ++ [resolveKey (heap w l) co]) = false ->
        keys (this w') = keys (this w) ++ [resolveKey (heap w l) co]
        /\ option_map CacheEntry.componentInstance
             (cache_get (cache (this w')) (resolveKey (heap w l) co))
           = Some i).
Proof.
  intros Hv Hk Hdead Hc Hco Hf Hmiss Hne.
  unfold run, step.
  assert (render (Some children) w
          = (Some l,
             mkWorld
               (heap_set (heap w) l (VNode.set_keepAlive true (heap w l)))
               (mkKeepAlive (include (this w)) (exclude (this w))
                  (max (this w)) (cache (this w)) (keys (this w))
                  (Some l) (Some (resolveKey (heap w l) co))
                  (_vnode (this w)) (watching (this w)))
               (destroyed_log w))) as ->.
  { unfold render. rewrite Hc, Hco, Hf, Hmiss. reflexivity. }
  unfold updated, cacheVNode, set_vnode. simpl.
  unfold heap_set at 1 2. rewrite Nat.eqb_refl. simpl.
  eexists. split; [reflexivity|]. simpl.
  destruct (over_capacity (max (this w))
              (keys (this w) ++ [resolveKey (heap w l) co])).
  - split; [|split; [reflexivity | discriminate]].
    destruct (keys (this w) ++ [resolveKey (heap w l) co]) as [|k0 ks];
      simpl.
    + rewrite cache_get_set_other by exact Hne. exact Hdead.
    + destruct (String.eqb_spec k0 k1) as [->|Hk0].
      * apply cache_get_set_same.
      * rewrite !cache_get_set_other by assumption. exact Hdead.
  - simpl. split; [|split; [reflexivity|]].
    + rewrite cache_get_set_other by exact Hne. exact Hdead.
    + intros _. split; [reflexivity|].
      rewrite cache_get_set_same. reflexivity.
Qed.

(** ** The properties of the cache object *)

Lemma cache_set_keeps_names (c : CacheEntryMap) (k k' : string)
  (v : option CacheEntry.t) :
  In k' (map fst c) -> In k' (map fst (cache_set c k v)).
Proof. intros H. apply cache_set_In. right. exact H. Qed.

Lemma fold_keeps_names (turn : Store -> string -> Store) :
  (forall s k k', In k' (map fst (st_cache s)) ->
                  In k' (map fst (st_cache (turn s k)))) ->
  forall ks s k', In k' (map fst (st_cache s)) ->
                  In k' (map fst (st_cache (fold_left turn ks s))).
Proof.
  intros H. induction ks as [|k ks IH]; simpl; intros s k' Hin;
    [exact Hin|].
  apply IH, H, Hin.
Qed.

Lemma pruneCache_keeps_names (s : Store) (current : option VNode.t)
  (filter : string -> bool) (k' : string) :
  In k' (map fst (st_cache s)) ->
  In k' (map fst (st_cache (pruneCache s current filter))).
Proof.
  unfold pruneCache. apply fold_keeps_names. intros s0 k k0 Hin.
  rewrite pruneCache_step_unfold.
  destruct (prunes filter (st_cache s0) k); [|exact Hin].
  simpl. apply cache_set_keeps_names, Hin.
Qed.

Lemma step_keeps_names (e : Event) (w w' : World) (k : string) :
  step e w = Some w' ->
  In k (map fst (cache (this w))) -> In k (map fst (cache (this w'))).
Proof.
  assert (forall w0 w1, cacheVNode w0 = Some w1 ->
            In k (map fst (cache (this w0))) ->
            In k (map fst (cache (this w1)))) as Hadmit.
  { intros w0 w1. unfold cacheVNode.
    destruct (vnodeToCache (this w0)) as [l|];
      [|intros E; injection E as <-; auto].
    destruct (keyToCache (this w0)) as [k0|]; [|discriminate].
    destruct (VNode.componentInstance (heap w0 l)) as [i|]; [|discriminate].
    intros E Hin. injection E as <-. simpl.
    destruct (over_capacity (max (this w0)) (keys (this w0) ++ [k0]));
      [destruct (keys (this w0) ++ [k0]); simpl|simpl];
      repeat apply cache_set_keeps_names; exact Hin. }
  destruct e as [slot|l i| | |val|val|]; simpl.
  - pose proof (proj1 (render_cache slot w)) as Hr.
    destruct (render slot w) as [r w1]. simpl in Hr.
    intros E. injection E as <-. simpl. rewrite Hr. auto.
  - intros E. injection E as <-. auto.
  - unfold mounted. destruct (cacheVNode w) as [w1|] eqn:E; [|discriminate].
    intros H. injection H as <-. simpl. apply (Hadmit _ _ E).
  - apply Hadmit.
  - intros E. injection E as <-.
    destruct (watching (this w)); [|auto].
    exact (pruneCache_keeps_names (store_of (set_include val w)) _ _ k).
  - intros E. injection E as <-.
    destruct (watching (this w)); [|auto].
    exact (pruneCache_keeps_names (store_of (set_exclude val w)) _ _ k).
  - intros E. injection E as <-.
    refine (fold_keeps_names destroyed_step _ _ (store_of w) k).
    intros s0 k0 k' Hin. simpl. apply cache_set_keeps_names, Hin.
Qed.

(** X15: the cache object never loses a property.  Eviction writes
    [null] into the slot and keeps the property, so a key that was ever
    admitted stays an own property of the object for the rest of the
    component's life, and every later prune or teardown loop meets it
    again. *)
Theorem cache_properties_never_deleted :
  (forall s key current,
      In key (map fst (st_cache (pruneCacheEntry s key current)))
      /\ cache_get (st_cache (pruneCacheEntry s key current)) key = None
      /\ In key (own_keys (st_cache (pruneCacheEntry s key current))))
  /\ (forall evs w w' k,
         run evs w = Some w' ->
         In k (map fst (cache (this w))) ->
         In k (map fst (cache (this w')))).
Proof.
  split.
  - intros s key current. simpl.
    assert (In key (map fst (cache_set (st_cache s) key None))) as H
      by (apply cache_set_In; left; reflexivity).
    split; [exact H|]. split; [apply cache_get_set_same|].
    apply own_keys_In. exact H.
  - induction evs as [|e evs IH]; simpl; intros w w' k.
    + intros E. injection E as <-. auto.
    + destruct (step e w) as [w1|] eqn:E; [|discriminate].
      intros Hrun Hin. apply (IH _ _ _ Hrun).
      eapply step_keeps_names; eauto.
Qed.

Lemma cache_properties_never_deleted_witness :
  In "2::b" (map fst (cache (this (destroyed abc_world)))).
Proof.
  exact (proj2 cache_properties_never_deleted [EvDestroyed] abc_world
           (destroyed abc_world) "2::b" eq_refl
           (or_intror (or_introl eq_refl))).
Defined.

(** ** The freshly mounted component is cached *)



(** ** The two filter sites agree *)




Lemma second_miss_replaces_pending_witness :
  exists w',
    run [EvRender (Some [1]); EvInstantiate 1 11; EvUpdated] abc_pending
    = Some w'
    /\ cache_get (cache (this w')) "1::a" = None
    /\ vnodeToCache (this w') = None.
Proof.
  assert (resolveKey (heap abc_pending 1)
            (VNodeComponentOptions.mk 2 (Some "B") (Some "b")) <> "1::a")
    as Hne by (intros E; vm_compute in E; discriminate).
  destruct (second_miss_replaces_pending [1] abc_pending 1 0 "1::a"
              (VNodeComponentOptions.mk 2 (Some "B") (Some "b")) 11
              eq_refl eq_refl eq_refl eq_refl eq_refl eq_refl eq_refl Hne)
    as (w' & E & Hdead & Hv & _).
  exists w'. split; [exact E|]. split; [exact Hdead | exact Hv].
Defined.
